(** * SplitSmart: share calculation and debt netting

    A shallow embedding of [splitsmart.py] (the split strategies, [Expense],
    [DebtManager] and [Group]) and the properties of its specification.

    Conventions of the embedding.

    - Python [float] amounts are exact rationals ([Q]).  [round(x, n)] is
      rounding to [n] decimals, ties to even, of the exact value; its result
      is always written [k # 10^n], so two rounded amounts are equal as
      numbers exactly when they are equal as terms.
    - A Python [dict] is an association list in insertion order: assigning
      an existing key keeps its position, assigning a new key appends.
    - A method that mutates [self] takes the object and returns the object
      it leaves behind together with its outcome ([Ok] or the exception
      raised), so that what a failed call has already written is visible.
    - [raise ValueError(f"...")] carries its message as a structured value
      instead of the formatted text. *)

From Stdlib Require Import ZArith QArith Qround Qabs Qminmax.
From Stdlib Require Import List String Ascii Bool Lia Lqa.
From Stdlib Require Import DecimalString Permutation Sorted.
Import ListNotations.

Set Implicit Arguments.

(* ================================================================== *)
(** ** Keys, dictionaries, exceptions *)

(** What a dictionary key needs: [__eq__] (and, with it, [__hash__]). *)
Class Key (K : Type) := { key_eqb : K -> K -> bool }.

#[export] Instance string_Key : Key string := {| key_eqb := String.eqb |}.

#[export] Instance pair_Key {A B} `{Key A} `{Key B} : Key (A * B) :=
  {| key_eqb := fun p q => key_eqb (fst p) (fst q) && key_eqb (snd p) (snd q) |}.

Definition dict (K V : Type) := list (K * V).

Section Dict.
Context {K V : Type} `{Key K}.

(** [d.get(k)] *)
Fixpoint dict_get (d : dict K V) (k : K) : option V :=
  match d with
  | [] => None
  | (k', v) :: d' => if key_eqb k' k then Some v else dict_get d' k
  end.

(** [d.get(k, default)] *)
Definition dict_get_default (d : dict K V) (k : K) (default : V) : V :=
  match dict_get d k with Some v => v | None => default end.

(** [k in d] *)
Definition dict_mem (d : dict K V) (k : K) : bool :=
  match dict_get d k with Some _ => true | None => false end.

(** [d[k] = v] *)
Fixpoint dict_set (d : dict K V) (k : K) (v : V) : dict K V :=
  match d with
  | [] => [(k, v)]
  | (k', v') :: d' =>
      if key_eqb k' k then (k', v) :: d' else (k', v') :: dict_set d' k v
  end.

(** [d.pop(k, None)] *)
Fixpoint dict_pop (d : dict K V) (k : K) : dict K V :=
  match d with
  | [] => []
  | (k', v') :: d' =>
      if key_eqb k' k then d' else (k', v') :: dict_pop d' k
  end.

Definition dict_keys (d : dict K V) : list K := map fst d.
Definition dict_values (d : dict K V) : list V := map snd d.
End Dict.

(** [{key(x): val(x) for x in xs}] *)
Definition dict_of {A K V} `{Key K} (key : A -> K) (val : A -> V)
    (xs : list A) : dict K V :=
  fold_left (fun d x => dict_set d (key x) (val x)) xs [].

Module User.
Record t := { name : string; email : string }.

Definition eqb (u v : t) : bool :=
  String.eqb (name u) (name v) && String.eqb (email u) (email v).

End User.

(** [@dataclass(eq=True, frozen=True)]: equality and hashing on both fields. *)
#[export] Instance User_Key : Key User.t := {| key_eqb := User.eqb |}.

(** The messages of the [ValueError]s the program raises. *)
Inductive message :=
| No_participants
| Requires_details (field : string)
| Keys_must_match (field : string) (missing extra : list string)
| Amounts_must_sum (total amount : Q)
| Percents_must_sum (total_pct : Q)
| Total_shares_must_be_positive
| Unknown_split_type (given : string)
| User_not_in_group (u : User.t) (group : string).

Inductive exn :=
| ValueError (m : message)
| KeyError
| IndexError
| StopIteration.

Inductive result (A : Type) :=
| Ok (a : A)
| Raise (e : exn).
Arguments Ok {A} a.
Arguments Raise {A} e.

Definition bind {A B} (r : result A) (f : A -> result B) : result B :=
  match r with Ok a => f a | Raise e => Raise e end.

Notation "x <- r ;; k" := (bind r (fun x => k))
  (at level 61, r at next level, right associativity).

(** [d[k]] read: [KeyError] on a missing key. *)
Definition dict_getitem {K V} `{Key K} (d : dict K V) (k : K) : result V :=
  match dict_get d k with Some v => Ok v | None => Raise KeyError end.

(** [{key(k, v): val(k, v) for k, v in d.items()}] where [key] may raise. *)
Fixpoint dict_comprehension {K V K' V'} `{Key K'}
    (key : K -> V -> result K') (val : K -> V -> V')
    (items : dict K V) (acc : dict K' V') : result (dict K' V') :=
  match items with
  | [] => Ok acc
  | (k, v) :: rest =>
      k' <- key k v ;;
      dict_comprehension key val rest (dict_set acc k' (val k v))
  end.

(* ================================================================== *)
(** ** Amounts and rounding *)

Open Scope Q_scope.

Definition Qltb (x y : Q) : bool := negb (Qle_bool y x).

(** Nearest integer, ties to the even one. *)
Definition round_half_even (x : Q) : Z :=
  let f := Qfloor x in
  match Qcompare (x - inject_Z f) (1 # 2) with
  | Lt => f
  | Gt => (f + 1)%Z
  | Eq => if Z.even f then f else (f + 1)%Z
  end.

Definition pow10 (n : nat) : positive := Nat.iter n (Pos.mul 10) 1%positive.

(** [round(x, ndigits)] *)
Definition py_round (x : Q) (ndigits : nat) : Q :=
  round_half_even (x * inject_Z (Zpos (pow10 ndigits))) # pow10 ndigits.

Definition round2 (x : Q) : Q := py_round x 2.

(** [sum(xs)] *)
Definition py_sum (xs : list Q) : Q := fold_left Qplus xs 0.

(** A [float] is a binary64 number, and an amount is written here as the
    rational that it stands for: 10.05 for the binary number nearest to
    10.05.  Sums and differences of amounts are taken on these rationals.
    A quotient or a product is taken on the binary numbers and rounded to
    one, so that the rounding to two decimals that follows it sees the
    binary number, which is hardly ever half-way between two hundredths,
    and not the decimal one that may be.

    [ilog2 x] is the exponent of [x], the largest [e] with [2^e <= |x|];
    [b64 x] is the binary64 number nearest to [x], ties to the even
    significand: 53 bits from the exponent of [x] down, and the multiples of
    [2^-1074] below [2^-1022].  Binary64 ends at about [1.8e308]; larger
    numbers are kept as they are. *)
Definition ilog2 (x : Q) : Z :=
  let e := (Z.log2 (Z.abs (Qnum x)) - Z.log2 (Zpos (Qden x)))%Z in
  if Qle_bool (2 ^ e) (Qabs x) then e else (e - 1)%Z.

Definition b64 (x : Q) : Q :=
  if Qeq_bool x 0 then 0
  else
    let ulp := 2 ^ Z.max (ilog2 x - 52) (-1074) in
    inject_Z (round_half_even (x / ulp)) * ulp.

(** [x / y] on floats, and on a float and an [int] that a float holds. *)
Definition py_truediv (x y : Q) : Q := b64 (b64 x / b64 y).

(** [x * y] on floats. *)
Definition py_mul (x y : Q) : Q := b64 (b64 x * b64 y).

(** [a / b] on [int]s: the quotient itself is rounded. *)
Definition int_truediv (a b : Z) : Q := b64 (inject_Z a / inject_Z b).

(** The threshold under which a stored amount counts as nothing. *)
Definition epsilon : Q := 9 # 1000.

(* ================================================================== *)
(** ** Strings: [str.strip] and [str.lower] *)

Definition is_space (c : ascii) : bool :=
  let n := nat_of_ascii c in
  ((9 <=? n) && (n <=? 13) || (28 <=? n) && (n <=? 32))%nat.

Fixpoint lstrip (s : string) : string :=
  match s with
  | EmptyString => EmptyString
  | String c s' => if is_space c then lstrip s' else s
  end.

Fixpoint rstrip (s : string) : string :=
  match s with
  | EmptyString => EmptyString
  | String c s' =>
      match rstrip s' with
      | EmptyString => if is_space c then EmptyString else String c EmptyString
      | r => String c r
      end
  end.

Definition strip (s : string) : string := rstrip (lstrip s).

Definition lower_ascii (c : ascii) : ascii :=
  let n := nat_of_ascii c in
  if ((65 <=? n) && (n <=? 90))%nat then ascii_of_nat (n + 32) else c.

Fixpoint lower (s : string) : string :=
  match s with
  | EmptyString => EmptyString
  | String c s' => String (lower_ascii c) (lower s')
  end.

(** [x in (a, b, ...)] and the set operations on key lists. *)
Definition mem {K} `{Key K} (x : K) (l : list K) : bool := existsb (key_eqb x) l.
Definition subset {K} `{Key K} (l1 l2 : list K) : bool :=
  forallb (fun x => mem x l2) l1.
Definition set_eqb {K} `{Key K} (l1 l2 : list K) : bool :=
  subset l1 l2 && subset l2 l1.
Definition set_diff {K} `{Key K} (l1 l2 : list K) : list K :=
  filter (fun x => negb (mem x l2)) l1.

(* ================================================================== *)
(** ** Split strategies *)

(** The [details] blob: a dictionary that may hold the keys ["amounts"],
    ["percents"] and ["shares"]. *)
Module Details.
Record t := {
  amounts : option (dict string Q);
  percents : option (dict string Q);
  shares : option (dict string Z)
}.
End Details.

Module SplitStrategy.
Record t := {
  calculate_shares :
    Q -> list User.t -> option Details.t -> result (dict User.t Q)
}.
End SplitStrategy.

(** [email_to_user = {u.email: u for u in participants}] *)
Definition email_to_user_of (participants : list User.t) : dict string User.t :=
  dict_of User.email (fun u => u) participants.

(** The rounding remainder goes to the first key of [order]:
    [shares[first_key] = round(shares[first_key] + remainder, 2)]. *)
Definition absorb_remainder {K} `{Key K} (shares : dict K Q) (order : list K)
    (remainder : Q) (empty : exn) : result (dict K Q) :=
  if negb (Qeq_bool remainder 0) then
    match order with
    | [] => Raise empty
    | first_key :: _ =>
        s <- dict_getitem shares first_key ;;
        Ok (dict_set shares first_key (round2 (s + remainder)))
    end
  else Ok shares.

Module EqualSplit.
Definition calculate_shares (amount : Q) (participants : list User.t)
    (details : option Details.t) : result (dict User.t Q) :=
  let n := List.length participants in
  if (n =? 0)%nat then Raise (ValueError No_participants)
  else
    let base := round2 (py_truediv amount (inject_Z (Z.of_nat n))) in
    let shares := dict_of (fun p => p) (fun _ => base) participants in
    let distributed := round2 (py_sum (dict_values shares)) in
    let remainder := round2 (amount - distributed) in
    absorb_remainder shares participants remainder IndexError.

Definition new : SplitStrategy.t :=
  {| SplitStrategy.calculate_shares := calculate_shares |}.
End EqualSplit.

Module UnequalSplit.
Definition calculate_shares (amount : Q) (participants : list User.t)
    (details : option Details.t) : result (dict User.t Q) :=
  match details with
  | Some {| Details.amounts := Some amounts |} =>
      let email_to_user := email_to_user_of participants in
      if negb (set_eqb (dict_keys amounts) (dict_keys email_to_user)) then
        let missing := set_diff (dict_keys email_to_user) (dict_keys amounts) in
        let extra := set_diff (dict_keys amounts) (dict_keys email_to_user) in
        Raise (ValueError (Keys_must_match "amounts" missing extra))
      else
        let total := round2 (py_sum (dict_values amounts)) in
        if negb (Qeq_bool (round2 amount) total) then
          Raise (ValueError (Amounts_must_sum total (round2 amount)))
        else
          dict_comprehension (fun e _ => dict_getitem email_to_user e)
            (fun _ v => round2 v) amounts []
  | _ => Raise (ValueError (Requires_details "amounts"))
  end.

Definition new : SplitStrategy.t :=
  {| SplitStrategy.calculate_shares := calculate_shares |}.
End UnequalSplit.

(** The loop shared by the percentage and the ratio strategies:
    [share = round(amount * fraction, 2); shares[email] = share;
     running += share]. *)
Definition accumulate_shares {W} (amount : Q) (fraction : W -> Q)
    (items : dict string W) : dict string Q * Q :=
  fold_left
    (fun st item =>
       let share := round2 (py_mul amount (fraction (snd item))) in
       (dict_set (fst st) (fst item) share, snd st + share))
    items ([], 0).

Module PercentSplit.
Definition calculate_shares (amount : Q) (participants : list User.t)
    (details : option Details.t) : result (dict User.t Q) :=
  match details with
  | Some {| Details.percents := Some percents |} =>
      let email_to_user := email_to_user_of participants in
      if negb (set_eqb (dict_keys percents) (dict_keys email_to_user)) then
        let missing := set_diff (dict_keys email_to_user) (dict_keys percents) in
        let extra := set_diff (dict_keys percents) (dict_keys email_to_user) in
        Raise (ValueError (Keys_must_match "percents" missing extra))
      else
        let total_pct := py_round (py_sum (dict_values percents)) 6 in
        if Qltb (1 # 1000000) (Qabs (total_pct - 100)) then
          Raise (ValueError (Percents_must_sum total_pct))
        else
          let '(shares, running) :=
            accumulate_shares amount (fun pct => py_truediv pct 100) percents in
          let remainder := round2 (amount - round2 running) in
          shares <- absorb_remainder shares (dict_keys percents) remainder
                      StopIteration ;;
          dict_comprehension (fun e _ => dict_getitem email_to_user e)
            (fun _ v => v) shares []
  | _ => Raise (ValueError (Requires_details "percents"))
  end.

Definition new : SplitStrategy.t :=
  {| SplitStrategy.calculate_shares := calculate_shares |}.
End PercentSplit.

Module SharesSplit.
Definition calculate_shares (amount : Q) (participants : list User.t)
    (details : option Details.t) : result (dict User.t Q) :=
  match details with
  | Some {| Details.shares := Some shares_map |} =>
      let email_to_user := email_to_user_of participants in
      if negb (set_eqb (dict_keys shares_map) (dict_keys email_to_user)) then
        let missing := set_diff (dict_keys email_to_user) (dict_keys shares_map) in
        let extra := set_diff (dict_keys shares_map) (dict_keys email_to_user) in
        Raise (ValueError (Keys_must_match "shares" missing extra))
      else
        let total_shares := fold_left Z.add (dict_values shares_map) 0%Z in
        if (total_shares <=? 0)%Z then
          Raise (ValueError Total_shares_must_be_positive)
        else
          let '(shares, running) :=
            accumulate_shares amount
              (fun s => int_truediv s total_shares) shares_map in
          let remainder := round2 (amount - round2 running) in
          shares <- absorb_remainder shares (dict_keys shares_map) remainder
                      StopIteration ;;
          dict_comprehension (fun e _ => dict_getitem email_to_user e)
            (fun _ v => v) shares []
  | _ => Raise (ValueError (Requires_details "shares"))
  end.

Definition new : SplitStrategy.t :=
  {| SplitStrategy.calculate_shares := calculate_shares |}.
End SharesSplit.

Definition strategy_from_name (name : string) : result SplitStrategy.t :=
  let key := lower (strip name) in
  if mem key ["equal"%string] then Ok EqualSplit.new
  else if mem key ["unequal"; "amounts"]%string then Ok UnequalSplit.new
  else if mem key ["percent"; "percentage"; "percents"]%string then
    Ok PercentSplit.new
  else if mem key ["shares"; "ratio"]%string then Ok SharesSplit.new
  else Raise (ValueError (Unknown_split_type name)).

Module Expense.
Record t := {
  description : string;
  amount : Q;
  payer : User.t;
  participants : list User.t;
  strategy_name : string;
  details : option Details.t
}.

Definition calculate_splits (self : t) : result (dict User.t Q) :=
  strategy <- strategy_from_name (strategy_name self) ;;
  SplitStrategy.calculate_shares strategy
    (amount self) (participants self) (details self).
End Expense.

(* ================================================================== *)
(** ** Sorting and formatting *)

(** [list.sort] and [sorted] are stable: equal elements keep their order. *)
Section Sort.
Context {A : Type} (leb : A -> A -> bool).

Fixpoint insert_sorted (x : A) (l : list A) : list A :=
  match l with
  | [] => [x]
  | y :: l' => if leb x y then x :: l else y :: insert_sorted x l'
  end.

Definition stable_sort (l : list A) : list A :=
  fold_right insert_sorted [] l.
End Sort.

(** [key=lambda x: x[1]] *)
Definition by_amount (x y : string * Q) : bool := Qle_bool (snd x) (snd y).

(** Tuple order on the items [((debtor, creditor), amt)] of the debt map. *)
Definition item_leb (x y : (string * string) * Q) : bool :=
  match String.compare (fst (fst x)) (fst (fst y)) with
  | Lt => true
  | Gt => false
  | Eq =>
      match String.compare (snd (fst x)) (snd (fst y)) with
      | Lt => true
      | Gt => false
      | Eq => Qle_bool (snd x) (snd y)
      end
  end.

Definition digit (n : Z) : ascii := ascii_of_nat (48 + Z.to_nat n).

(** [f"{amt:.2f}"] *)
Definition format_2f (amt : Q) : string :=
  let c := round_half_even (amt * 100) in
  let a := Z.abs c in
  ((if Qltb amt 0 then "-" else "")
   ++ NilZero.string_of_uint (N.to_uint (Z.to_N (a / 100)))
   ++ "."
   ++ String (digit ((a / 10) mod 10)) (String (digit (a mod 10)) ""))%string.

(* ================================================================== *)
(** ** Debt manager *)

Module DebtManager.
Record t := { debts : dict (string * string) Q }.

Definition new : t := {| debts := [] |}.

Definition _add_debt (self : t) (debtor creditor : User.t) (amount : Q) : t :=
  if String.eqb (User.email debtor) (User.email creditor) then self
  else
    let key := (User.email debtor, User.email creditor) in
    let v := round2 (dict_get_default (debts self) key 0 + amount) in
    let debts := dict_set (debts self) key v in
    if Qle_bool v epsilon then {| debts := dict_pop debts key |}
    else {| debts := debts |}.

(** One turn of the loop that computes the net balance per user. *)
Definition net_step (net : dict string Q) (item : (string * string) * Q)
    : dict string Q :=
  let '((debtor, creditor), amt) := item in
  let net := dict_set net debtor (round2 (dict_get_default net debtor 0 - amt)) in
  dict_set net creditor (round2 (dict_get_default net creditor 0 + amt)).

Definition net_balances (debts : dict (string * string) Q) : dict string Q :=
  fold_left net_step debts [].

(** [[(u, -bal) for u, bal in net.items() if bal < -0.009]], unsorted *)
Definition debtors_of (net : dict string Q) : list (string * Q) :=
  map (fun ub => (fst ub, - snd ub))
      (filter (fun ub => Qltb (snd ub) (- epsilon)) net).

(** [[(u, bal) for u, bal in net.items() if bal > 0.009]], unsorted *)
Definition creditors_of (net : dict string Q) : list (string * Q) :=
  filter (fun ub => Qltb epsilon (snd ub)) net.

(** The two-pointer loop.  It only reads and writes [debtors[i]] and
    [creditors[j]], so its state is the two suffixes [debtors[i:]] and
    [creditors[j:]] and the map built so far; [fuel] bounds the number of
    turns. *)
Fixpoint match_loop (fuel : nat) (debtors creditors : list (string * Q))
    (simplified : dict (string * string) Q) : dict (string * string) Q :=
  match fuel with
  | O => simplified
  | S fuel =>
      match debtors, creditors with
      | (d_email, d_amt) :: debtors', (c_email, c_amt) :: creditors' =>
          let pay := round2 (Qmin d_amt c_amt) in
          let simplified :=
            if Qltb 0 pay then
              dict_set simplified (d_email, c_email)
                (round2 (dict_get_default simplified (d_email, c_email) 0 + pay))
            else simplified in
          let d_amt := round2 (d_amt - pay) in
          let c_amt := round2 (c_amt - pay) in
          let debtors :=
            if Qle_bool d_amt epsilon then debtors'
            else (d_email, d_amt) :: debtors' in
          let creditors :=
            if Qle_bool c_amt epsilon then creditors'
            else (c_email, c_amt) :: creditors' in
          match_loop fuel debtors creditors simplified
      | _, _ => simplified
      end
  end.

(** Every turn moves [i] or [j] forward (see [match_loop_fuel]), so the
    loop is over after at most [len(debtors) + len(creditors)] turns. *)
Definition simplify_debts (self : t) : t :=
  let net := net_balances (debts self) in
  let debtors := stable_sort by_amount (debtors_of net) in
  let creditors := stable_sort by_amount (creditors_of net) in
  let simplified :=
    match_loop (List.length debtors + List.length creditors)
      debtors creditors [] in
  {| debts := filter (fun kv => Qltb epsilon (snd kv)) simplified |}.

Definition update_debts_for_expense (self : t) (expense : Expense.t)
    : t * result unit :=
  match Expense.calculate_splits expense with
  | Raise e => (self, Raise e)
  | Ok splits =>
      let payer := Expense.payer expense in
      let self :=
        fold_left
          (fun self ps =>
             let '(participant, share) := ps in
             if String.eqb (User.email participant) (User.email payer)
             then self
             else _add_debt self participant payer share)
          splits self in
      (simplify_debts self, Ok tt)
  end.

(** [settle_up] up to its last statement: the entry the payment changes. *)
Definition settle_up_entry (self : t) (payer receiver : User.t) (amount : Q)
    : t :=
  let key := (User.email payer, User.email receiver) in
  if negb (dict_mem (debts self) key) then
    let opp_key := (User.email receiver, User.email payer) in
    if dict_mem (debts self) opp_key then
      {| debts := dict_set (debts self) opp_key
                    (round2 (dict_get_default (debts self) opp_key 0 + amount)) |}
    else
      {| debts := dict_set (debts self) opp_key (round2 amount) |}
  else
    let v := round2 (dict_get_default (debts self) key 0 - amount) in
    let debts := dict_set (debts self) key v in
    if Qle_bool v epsilon then {| debts := dict_pop debts key |}
    else {| debts := debts |}.

Definition settle_up (self : t) (payer receiver : User.t) (amount : Q) : t :=
  simplify_debts (settle_up_entry self payer receiver amount).

Definition summary_lines (self : t) (users_by_email : dict string User.t)
    : list string :=
  let out :=
    map (fun item =>
           let '((debtor, creditor), amt) := item in
           let d := User.name (dict_get_default users_by_email debtor
                                 {| User.name := debtor; User.email := debtor |}) in
           let c := User.name (dict_get_default users_by_email creditor
                                 {| User.name := creditor; User.email := creditor |}) in
           (d ++ " owes " ++ c ++ " â‚¹" ++ format_2f amt)%string)
        (stable_sort item_leb (debts self)) in
  match out with
  | [] => ["No outstanding debts."%string]
  | _ => out
  end.
End DebtManager.

(* ================================================================== *)
(** ** Group *)

Module Group.
Record t := {
  name : string;
  members : list User.t;
  expenses : list Expense.t;
  debt_manager : DebtManager.t
}.

Definition add_expense (self : t) (expense : Expense.t) : t * result unit :=
  let emails := map User.email (members self) in
  match find (fun p => negb (mem (User.email p) emails))
             (Expense.participants expense ++ [Expense.payer expense]) with
  | Some p => (self, Raise (ValueError (User_not_in_group p (name self))))
  | None =>
      let expenses := expenses self ++ [expense] in
      let '(debt_manager, outcome) :=
        DebtManager.update_debts_for_expense (debt_manager self) expense in
      ({| name := name self; members := members self;
          expenses := expenses; debt_manager := debt_manager |}, outcome)
  end.

Definition view_debts (self : t) : list string :=
  DebtManager.summary_lines (debt_manager self)
    (dict_of User.email (fun u => u) (members self)).

Definition settle_up (self : t) (payer receiver : User.t) (amount : Q) : t :=
  {| name := name self; members := members self; expenses := expenses self;
     debt_manager :=
       DebtManager.settle_up (debt_manager self) payer receiver amount |}.
End Group.

(* ================================================================== *)
(** ** Persistence *)

(** [Storage.save] builds a JSON document and dumps it to a file;
    [Storage.load] reads the document back and rebuilds users and groups
    from it.  The file is the document: what [json.load] returns is what
    [json.dump] was given.  The document is typed as [save] writes it. *)
Module Storage.
Record expense_record := {
  description : string;
  amount : Q;
  payer : string;
  participants : list string;
  strategy : string;
  details : Details.t
}.

Record group_record := {
  name : string;
  members : list string;
  expenses : list expense_record;
  debts : list ((string * string) * Q)
}.

Record document := {
  users : list User.t;
  groups : list group_record
}.

(** [e.details or {}] *)
Definition details_or_empty (details : option Details.t) : Details.t :=
  match details with
  | Some d => d
  | None => {| Details.amounts := None; Details.percents := None;
               Details.shares := None |}
  end.

Definition save_expense (e : Expense.t) : expense_record :=
  {| description := Expense.description e;
     amount := Expense.amount e;
     payer := User.email (Expense.payer e);
     participants := map User.email (Expense.participants e);
     strategy := Expense.strategy_name e;
     details := details_or_empty (Expense.details e) |}.

Definition save_group (g : Group.t) : group_record :=
  {| name := Group.name g;
     members := map User.email (Group.members g);
     expenses := map save_expense (Group.expenses g);
     debts := DebtManager.debts (Group.debt_manager g) |}.

(** The document that [save] writes. *)
Definition save (users : dict string User.t) (groups : dict string Group.t)
    : document :=
  {| users := dict_values users;
     groups := map save_group (dict_values groups) |}.

(** [[users[em] for em in emails]] *)
Fixpoint lookup_all (users : dict string User.t) (emails : list string)
    : result (list User.t) :=
  match emails with
  | [] => Ok []
  | em :: rest =>
      u <- dict_getitem users em ;;
      us <- lookup_all users rest ;;
      Ok (u :: us)
  end.

(** One turn of the loop that replays the expenses of a group. *)
Definition load_expense (users : dict string User.t) (group : Group.t)
    (e : expense_record) : result Group.t :=
  payer <- dict_getitem users (payer e) ;;
  participants <- lookup_all users (participants e) ;;
  let exp :=
    {| Expense.description := description e;
       Expense.amount := amount e;
       Expense.payer := payer;
       Expense.participants := participants;
       Expense.strategy_name := strategy e;
       Expense.details := Some (details e) |} in
  let '(group, outcome) := Group.add_expense group exp in
  _ <- outcome ;;
  Ok group.

Fixpoint load_expenses (users : dict string User.t) (group : Group.t)
    (es : list expense_record) : result Group.t :=
  match es with
  | [] => Ok group
  | e :: rest =>
      group <- load_expense users group e ;;
      load_expenses users group rest
  end.

Definition load_group (users : dict string User.t) (g : group_record)
    : result Group.t :=
  let members :=
    flat_map (fun email =>
                match dict_get users email with
                | Some u => [u]
                | None => []
                end) (members g) in
  let group :=
    {| Group.name := name g; Group.members := members;
       Group.expenses := []; Group.debt_manager := DebtManager.new |} in
  group <- load_expenses users group (expenses g) ;;
  let debts := dict_of (fun d => fst d) (fun d => snd d) (debts g) in
  Ok {| Group.name := Group.name group;
        Group.members := Group.members group;
        Group.expenses := Group.expenses group;
        Group.debt_manager :=
          DebtManager.simplify_debts {| DebtManager.debts := debts |} |}.

Fixpoint load_groups (users : dict string User.t) (gs : list group_record)
    (groups : dict string Group.t) : result (dict string Group.t) :=
  match gs with
  | [] => Ok groups
  | g :: rest =>
      group <- load_group users g ;;
      load_groups users rest (dict_set groups (Group.name group) group)
  end.

Definition load (data : document)
    : result (dict string User.t * dict string Group.t) :=
  let users := dict_of User.email (fun u => u) (users data) in
  groups <- load_groups users (groups data) [] ;;
  Ok (users, groups).
End Storage.

(* ================================================================== *)
(** * Vocabulary of the specification *)

(** An amount with at most two decimals. *)
Definition is_cents (x : Q) : bool := Qeq_bool (round2 x) x.

(** [k] hundredths. *)
Definition cents (k : Z) : Q := k # 100.

(** Amounts in hundredths: a list of pairs with integer amounts, the list
    of amounts it stands for, and back. *)
Definition of_cents {K} (l : list (K * Z)) : list (K * Q) :=
  map (fun kz => (fst kz, cents (snd kz))) l.

Definition to_cents {K} (l : list (K * Q)) : list (K * Z) :=
  map (fun kq => (fst kq, Qnum (snd kq))) l.

(** The net balances, the net debtors and the net creditors of a debt map,
    in hundredths, and the two sorted lists the matching loop starts from. *)
Definition net_cents (debts : dict (string * string) Q) : dict string Z :=
  to_cents (DebtManager.net_balances debts).

Definition by_cents (x y : string * Z) : bool := (snd x <=? snd y)%Z.

Definition debtor_cents (net : dict string Z) : list (string * Z) :=
  map (fun uz => (fst uz, (- snd uz)%Z)) (filter (fun uz => (snd uz <? 0)%Z) net).

Definition creditor_cents (net : dict string Z) : list (string * Z) :=
  filter (fun uz => (0 <? snd uz)%Z) net.

(** The transfers of the two-pointer matching, as a list: the smaller of the
    two amounts at the heads goes from the first debtor to the first
    creditor, and whoever is left with nothing leaves the list. *)
Fixpoint greedy (fuel : nat) (ds cs : list (string * Z))
    : list ((string * string) * Z) :=
  match fuel with
  | O => []
  | S fuel =>
      match ds, cs with
      | (d, x) :: ds', (c, y) :: cs' =>
          ((d, c), Z.min x y)
          :: greedy fuel
               (if (x <=? y)%Z then ds' else (d, (x - y)%Z) :: ds')
               (if (y <=? x)%Z then cs' else (c, (y - x)%Z) :: cs')
      | _, _ => []
      end
  end.

(** Amounts of at least one hundredth. *)
Definition positive_amounts {K} (l : list (K * Z)) : Prop :=
  Forall (fun kz => (1 <= snd kz)%Z) l.

(** The sorted debtors and creditors the loop starts from, and the transfers
    it makes. *)
Definition sorted_debtors (debts : dict (string * string) Q) : list (string * Z) :=
  stable_sort by_cents (debtor_cents (net_cents debts)).

Definition sorted_creditors (debts : dict (string * string) Q)
    : list (string * Z) :=
  stable_sort by_cents (creditor_cents (net_cents debts)).

Definition transfers (debts : dict (string * string) Q)
    : list ((string * string) * Z) :=
  greedy (List.length (sorted_debtors debts) + List.length (sorted_creditors debts))
    (sorted_debtors debts) (sorted_creditors debts).

(** [net[u] = net.get(u, 0) + m] in hundredths, and one turn of the net
    balance loop in hundredths. *)
Definition bump (net : dict string Z) (um : string * Z) : dict string Z :=
  dict_set net (fst um) (dict_get_default net (fst um) 0 + snd um)%Z.

Definition net_step_cents (net : dict string Z) (item : (string * string) * Z)
    : dict string Z :=
  bump (bump net (fst (fst item), (- snd item)%Z)) (snd (fst item), snd item).

(** The amounts of a ledger, rounded, in hundredths. *)
Definition ledger_cents (debts : dict (string * string) Q)
    : list ((string * string) * Z) :=
  map (fun kv => (fst kv, Qnum (round2 (snd kv)))) debts.

(** A list in which every element is below the next one. *)
Fixpoint ascending {A} (leb : A -> A -> bool) (l : list A) : Prop :=
  match l with
  | x :: (y :: _) as l' => leb x y = true /\ ascending leb l'
  | _ => True
  end.

(** A transfer read from the creditor's side. *)
Definition swap_entry (e : (string * string) * Z) : (string * string) * Z :=
  ((snd (fst e), fst (fst e)), snd e).

(** While the transfers are being summed up, a debtor is absent from the
    net balances or below zero, a creditor absent or above zero; a transfer
    goes from a debtor to a creditor and is of a cent at least. *)
Definition signs_ok (debtor_names creditor_names : list string)
    (net : dict string Z) : Prop :=
  forall u z, dict_get net u = Some z ->
    (In u debtor_names -> (z < 0)%Z) /\ (In u creditor_names -> (0 < z)%Z).

Definition transfer_ok (debtor_names creditor_names : list string)
    (e : (string * string) * Z) : Prop :=
  In (fst (fst e)) debtor_names /\ In (snd (fst e)) creditor_names /\
  (1 <= snd e)%Z.

Definition total {K} (l : list (K * Z)) : Z :=
  fold_right (fun kz acc => (snd kz + acc)%Z) 0%Z l.

(** The canonical form of a ledger: no debt to oneself, every amount above
    epsilon, no pair of users in both directions. *)
Definition canonical (debts : dict (string * string) Q) : Prop :=
  forall d c v, In ((d, c), v) debts ->
    d <> c /\ epsilon < v /\ ~ In (c, d) (dict_keys debts).

(** A ledger whose amounts all have at most two decimals. *)
Definition cents_ledger (debts : dict (string * string) Q) : bool :=
  forallb (fun kv => is_cents (snd kv)) debts.

(** The sum of the positive net balances of a ledger. *)
Definition positive_net_total (debts : dict (string * string) Q) : Q :=
  py_sum (filter (Qltb 0) (dict_values (DebtManager.net_balances debts))).

(** What the percentage and the ratio strategies do once their parameters
    are accepted. *)
Definition weighted_shares {W} (amount : Q) (fraction : W -> Q)
    (items : dict string W) (email_to_user : dict string User.t)
    : result (dict User.t Q) :=
  let '(shares, running) := accumulate_shares amount fraction items in
  let remainder := round2 (amount - round2 running) in
  shares <- absorb_remainder shares (dict_keys items) remainder StopIteration ;;
  dict_comprehension (fun e _ => dict_getitem email_to_user e)
    (fun _ v => v) shares [].

(** The users of a ledger: whoever owes or is owed. *)
Definition users_of (debts : dict (string * string) Q) : list string :=
  flat_map (fun kv => [fst (fst kv); snd (fst kv)]) debts.

(** What the shares of an expense make the participants other than the
    payer owe the payer, in hundredths. *)
Definition owed_to_payer (payer : User.t) (splits : dict User.t Q)
    : list ((string * string) * Z) :=
  map (fun ps => ((User.email (fst ps), User.email payer),
                  Qnum (round2 (snd ps))))
      (filter (fun ps => negb (String.eqb (User.email (fst ps))
                                          (User.email payer))) splits).

(** The debts of several debtors to one creditor. *)
Definition owed_to (c : string) (debtors : list (string * Z))
    : list ((string * string) * Z) :=
  map (fun dz => ((fst dz, c), snd dz)) debtors.

(** One line of the summary. *)
Definition summary_line (users_by_email : dict string User.t)
    (item : (string * string) * Q) : string :=
  let '((debtor, creditor), amt) := item in
  let d := User.name (dict_get_default users_by_email debtor
                        {| User.name := debtor; User.email := debtor |}) in
  let c := User.name (dict_get_default users_by_email creditor
                        {| User.name := creditor; User.email := creditor |}) in
  (d ++ " owes " ++ c ++ " â‚¹" ++ format_2f amt)%string.

(** A dictionary whose keys are read off its values, as [users] is keyed
    by email and [groups] by name. *)
Definition keyed_by {V} (key : V -> string) (d : dict string V) : Prop :=
  NoDup (dict_keys d) /\ Forall (fun kv => fst kv = key (snd kv)) d.

(** A user as the directory has it. *)
Definition registered (users : dict string User.t) (u : User.t) : Prop :=
  dict_get users (User.email u) = Some u.

(** A group whose members, payers and participants are registered users
    and whose ledger has a key once. *)
Definition group_of_registered (users : dict string User.t) (g : Group.t)
    : Prop :=
  Forall (registered users) (Group.members g) /\
  Forall (fun e => registered users (Expense.payer e) /\
                   Forall (registered users) (Expense.participants e))
         (Group.expenses g) /\
  NoDup (dict_keys (DebtManager.debts (Group.debt_manager g))).

(** What a saved expense and a saved group are loaded as. *)
Definition reloaded_expense (e : Expense.t) : Expense.t :=
  {| Expense.description := Expense.description e;
     Expense.amount := Expense.amount e;
     Expense.payer := Expense.payer e;
     Expense.participants := Expense.participants e;
     Expense.strategy_name := Expense.strategy_name e;
     Expense.details := Some (Storage.details_or_empty (Expense.details e)) |}.

Definition reloaded_group (g : Group.t) : Group.t :=
  {| Group.name := Group.name g;
     Group.members := Group.members g;
     Group.expenses := map reloaded_expense (Group.expenses g);
     Group.debt_manager := DebtManager.simplify_debts (Group.debt_manager g) |}.

(** A history whose expenses pass the checks of [add_expense]: payer and
    participants are members, and the shares are computed. *)
Definition accepted_history (g : Group.t) : Prop :=
  Forall (fun e =>
            (forall p, In p (Expense.participants e ++ [Expense.payer e]) ->
                       In (User.email p) (map User.email (Group.members g))) /\
            exists splits, Expense.calculate_splits e = Ok splits)
         (Group.expenses g).

(** A ledger that a collapse leaves as it is. *)
Definition collapsed (dm : DebtManager.t) : Prop :=
  DebtManager.simplify_debts dm = dm.

(** The users and expenses of the scenarios. *)
Definition user_A : User.t := {| User.name := "A"; User.email := "a@x.com" |}.
Definition user_B : User.t := {| User.name := "B"; User.email := "b@x.com" |}.
Definition user_C : User.t := {| User.name := "C"; User.email := "c@x.com" |}.

Definition expense_1000 : Expense.t :=
  {| Expense.description := "trip";
     Expense.amount := 1000;
     Expense.payer := user_A;
     Expense.participants := [user_A; user_B; user_C];
     Expense.strategy_name := "equal";
     Expense.details := None |}.

Definition ledger_1000 : DebtManager.t :=
  fst (DebtManager.update_debts_for_expense DebtManager.new expense_1000).

Definition expense_unknown_policy : Expense.t :=
  {| Expense.description := "dinner";
     Expense.amount := 90;
     Expense.payer := user_A;
     Expense.participants := [user_A; user_B];
     Expense.strategy_name := "halves";
     Expense.details := None |}.

(** A directory of three users, a group with one accepted expense and a
    group whose only expense was rejected. *)
Definition users_ABC : dict string User.t :=
  dict_of User.email (fun u => u) [user_A; user_B; user_C].

Definition group_trip : Group.t :=
  fst (Group.add_expense
         {| Group.name := "trip"; Group.members := [user_A; user_B; user_C];
            Group.expenses := []; Group.debt_manager := DebtManager.new |}
         expense_1000).

Definition group_dinner : Group.t :=
  fst (Group.add_expense
         {| Group.name := "dinner"; Group.members := [user_A; user_B];
            Group.expenses := []; Group.debt_manager := DebtManager.new |}
         expense_unknown_policy).

(* ================================================================== *)
(** * Properties *)

(** ** Keys and dictionaries *)

(** [key_eqb] decides equality. *)
Class KeyOk (K : Type) {key_of : Key K} := {
  key_eqb_eq : forall a b : K, key_eqb a b = true <-> a = b
}.
Arguments KeyOk K {key_of}.

#[export] Instance string_KeyOk : KeyOk string.
Proof. constructor. exact String.eqb_eq. Qed.

#[export] Instance pair_KeyOk {A B} `{KeyOk A} `{KeyOk B} : KeyOk (A * B).
Proof.
  constructor. intros [a b] [a' b']; simpl.
  rewrite andb_true_iff, !key_eqb_eq. split.
  - intros [-> ->]; reflexivity.
  - intros E; inversion E; auto.
Qed.

#[export] Instance User_KeyOk : KeyOk User.t.
Proof.
  constructor. intros [n e] [n' e']; unfold key_eqb; simpl; unfold User.eqb; simpl.
  rewrite andb_true_iff, !String.eqb_eq. split.
  - intros [-> ->]; reflexivity.
  - intros E; inversion E; auto.
Qed.

Section DictFacts.
Context {K V : Type} `{KeyOk K}.
Implicit Types (d : dict K V) (k : K) (v : V).

Lemma key_eqb_refl k : key_eqb k k = true.
Proof. apply key_eqb_eq; reflexivity. Qed.

Lemma key_eqb_neq k k' : k <> k' -> key_eqb k k' = false.
Proof.
  intros N. destruct (key_eqb k k') eqn:E; [|reflexivity].
  apply key_eqb_eq in E; contradiction.
Qed.

Lemma key_eq_dec k k' : {k = k'} + {k <> k'}.
Proof.
  destruct (key_eqb k k') eqn:E.
  - left; apply key_eqb_eq; exact E.
  - right; intros ->; rewrite key_eqb_refl in E; discriminate.
Qed.

Lemma dict_get_set_same d k v : dict_get (dict_set d k v) k = Some v.
Proof.
  induction d as [|[k' v'] d IH]; simpl.
  - rewrite key_eqb_refl; reflexivity.
  - destruct (key_eqb k' k) eqn:E; simpl; rewrite E; auto.
Qed.

Lemma dict_get_set_other d k k' v :
  k <> k' -> dict_get (dict_set d k v) k' = dict_get d k'.
Proof.
  intros N. induction d as [|[k0 v0] d IH]; simpl.
  - rewrite key_eqb_neq by assumption; reflexivity.
  - destruct (key_eqb k0 k) eqn:E; simpl.
    + apply key_eqb_eq in E; subst k0.
      rewrite key_eqb_neq by assumption; reflexivity.
    + rewrite IH; reflexivity.
Qed.

Lemma dict_get_pop_other d k k' :
  k <> k' -> dict_get (dict_pop d k) k' = dict_get d k'.
Proof.
  intros N. induction d as [|[k0 v0] d IH]; simpl; [reflexivity|].
  destruct (key_eqb k0 k) eqn:E; simpl.
  - apply key_eqb_eq in E; subst k0.
    rewrite key_eqb_neq by assumption; reflexivity.
  - rewrite IH; reflexivity.
Qed.

Lemma dict_get_None d k : dict_get d k = None <-> ~ In k (dict_keys d).
Proof.
  induction d as [|[k0 v0] d IH]; simpl.
  - split; auto.
  - destruct (key_eqb k0 k) eqn:E.
    + apply key_eqb_eq in E; subst. split; [discriminate|].
      intros N; exfalso; apply N; left; reflexivity.
    + rewrite IH. split.
      * intros N [E'|I]; [subst; rewrite key_eqb_refl in E; discriminate|auto].
      * intros N I; apply N; right; exact I.
Qed.

Lemma dict_get_In d k v : dict_get d k = Some v -> In (k, v) d.
Proof.
  induction d as [|[k0 v0] d IH]; simpl; [discriminate|].
  destruct (key_eqb k0 k) eqn:E.
  - apply key_eqb_eq in E; subst. intros [= ->]; left; reflexivity.
  - intros G; right; auto.
Qed.

Lemma In_dict_get d k v :
  NoDup (dict_keys d) -> In (k, v) d -> dict_get d k = Some v.
Proof.
  induction d as [|[k0 v0] d IH]; simpl; [contradiction|].
  intros ND [E|I].
  - inversion E; subst. rewrite key_eqb_refl; reflexivity.
  - inversion ND as [|? ? NI ND']; subst.
    destruct (key_eqb k0 k) eqn:E.
    + apply key_eqb_eq in E; subst. exfalso; apply NI.
      change k with (fst (k, v)); apply in_map; exact I.
    + auto.
Qed.

Lemma dict_get_pop_same d k :
  NoDup (dict_keys d) -> dict_get (dict_pop d k) k = None.
Proof.
  induction d as [|[k0 v0] d IH]; simpl; [reflexivity|].
  intros ND; inversion ND as [|? ? NI ND']; subst.
  destruct (key_eqb k0 k) eqn:E; simpl.
  - apply key_eqb_eq in E; subst. apply dict_get_None; exact NI.
  - rewrite E; auto.
Qed.

Lemma dict_pop_set d k v : dict_pop (dict_set d k v) k = dict_pop d k.
Proof.
  induction d as [|[k0 v0] d IH]; simpl.
  - rewrite key_eqb_refl; reflexivity.
  - destruct (key_eqb k0 k) eqn:E; simpl; rewrite E; [reflexivity|].
    rewrite IH; reflexivity.
Qed.

Lemma dict_set_fresh d k v :
  dict_get d k = None -> dict_set d k v = d ++ [(k, v)].
Proof.
  induction d as [|[k0 v0] d IH]; simpl; [reflexivity|].
  destruct (key_eqb k0 k); [discriminate|].
  intros G; rewrite IH by assumption; reflexivity.
Qed.

Lemma dict_keys_set d k v :
  dict_keys (dict_set d k v) =
  if dict_mem d k then dict_keys d else dict_keys d ++ [k].
Proof.
  unfold dict_mem. induction d as [|[k0 v0] d IH]; simpl; [reflexivity|].
  destruct (key_eqb k0 k) eqn:E; simpl; [reflexivity|].
  rewrite IH. destruct (dict_get d k); reflexivity.
Qed.

Lemma dict_keys_set_In d k v k' :
  In k' (dict_keys (dict_set d k v)) <-> k' = k \/ In k' (dict_keys d).
Proof.
  rewrite dict_keys_set. unfold dict_mem.
  destruct (dict_get d k) eqn:G.
  - split; [auto|]. intros [->|I]; [|exact I].
    apply dict_get_In in G. change k with (fst (k, v0)).
    apply in_map; exact G.
  - rewrite in_app_iff; simpl. intuition.
Qed.

Lemma dict_set_NoDup d k v :
  NoDup (dict_keys d) -> NoDup (dict_keys (dict_set d k v)).
Proof.
  intros ND. rewrite dict_keys_set. unfold dict_mem.
  destruct (dict_get d k) eqn:G; [exact ND|].
  apply dict_get_None in G.
  apply NoDup_app; [exact ND | repeat constructor; simpl; tauto |].
  intros a Ia [<-|[]]. auto.
Qed.

Lemma dict_pop_keys_incl d k k' :
  In k' (dict_keys (dict_pop d k)) -> In k' (dict_keys d).
Proof.
  induction d as [|[k0 v0] d IH]; simpl; [auto|].
  destruct (key_eqb k0 k); simpl; intuition.
Qed.

Lemma dict_pop_NoDup d k :
  NoDup (dict_keys d) -> NoDup (dict_keys (dict_pop d k)).
Proof.
  induction d as [|[k0 v0] d IH]; simpl; [auto|].
  intros ND; inversion ND as [|? ? NI ND']; subst.
  destruct (key_eqb k0 k); simpl; [exact ND'|].
  constructor; [|auto]. intros I; apply NI.
  eapply dict_pop_keys_incl; exact I.
Qed.
End DictFacts.

(** ** Rounding *)

Lemma round_half_even_comp x y :
  x == y -> round_half_even x = round_half_even y.
Proof.
  intros E. unfold round_half_even.
  rewrite (Qfloor_comp _ _ E).
  assert (E' : x - inject_Z (Qfloor y) == y - inject_Z (Qfloor y))
    by (rewrite E; reflexivity).
  rewrite (Qcompare_comp _ _ E' (1 # 2) (1 # 2) (Qeq_refl _)).
  reflexivity.
Qed.

Lemma round_half_even_Z k : round_half_even (inject_Z k) = k.
Proof.
  unfold round_half_even. rewrite Qfloor_Z.
  destruct (Qcompare_spec (inject_Z k - inject_Z k) (1 # 2)); [lra|reflexivity|lra].
Qed.

Lemma round_half_even_nonpos x : x <= 0 -> (round_half_even x <= 0)%Z.
Proof.
  intros Hx. unfold round_half_even.
  assert (F : (Qfloor x <= 0)%Z).
  { change 0%Z with (Qfloor 0). apply Qfloor_resp_le; exact Hx. }
  destruct (Z.eq_dec (Qfloor x) 0) as [E|N].
  - rewrite E.
    destruct (Qcompare_spec (x - inject_Z 0) (1 # 2)) as [C|C|C];
      [| lia |]; unfold inject_Z in C; lra.
  - destruct (Qcompare _ _); [destruct (Z.even _)| |]; lia.
Qed.

Lemma round2_unfold x : round2 x = round_half_even (x * inject_Z 100) # 100.
Proof. reflexivity. Qed.

Lemma round2_value x k : x == cents k -> round2 x = cents k.
Proof.
  intros E. rewrite round2_unfold. unfold cents. f_equal.
  rewrite <- (round_half_even_Z k). apply round_half_even_comp.
  rewrite E. unfold Qeq, inject_Z; simpl. lia.
Qed.

Lemma round2_cents k : round2 (cents k) = cents k.
Proof. apply round2_value; reflexivity. Qed.

Lemma round2_comp_eq x y : x == y -> round2 x = round2 y.
Proof.
  intros E. rewrite !round2_unfold. f_equal.
  apply round_half_even_comp. rewrite E. reflexivity.
Qed.

Lemma round2_is_cents x : exists k, round2 x = cents k.
Proof. eexists; apply round2_unfold. Qed.

Lemma is_cents_spec x : is_cents x = true <-> exists k, x == cents k.
Proof.
  unfold is_cents. rewrite Qeq_bool_iff. split.
  - intros E. destruct (round2_is_cents x) as [k Hk].
    exists k. rewrite <- Hk. symmetry; exact E.
  - intros [k E]. rewrite (round2_value E). symmetry; exact E.
Qed.

Lemma round2_nonpos x : x <= 0 -> Qle_bool (round2 x) epsilon = true.
Proof.
  intros Hx. apply Qle_bool_iff. rewrite round2_unfold.
  assert (R : (round_half_even (x * inject_Z 100) <= 0)%Z).
  { apply round_half_even_nonpos.
    assert (0 < inject_Z 100) by reflexivity. nra. }
  unfold Qle, epsilon; simpl. lia.
Qed.

Lemma cents_le_epsilon k : Qle_bool (cents k) epsilon = (k <=? 0)%Z.
Proof.
  apply eq_true_iff_eq. rewrite Qle_bool_iff, Z.leb_le.
  unfold Qle, cents, epsilon; simpl. lia.
Qed.

Lemma cents_gt_epsilon k : Qltb epsilon (cents k) = (0 <? k)%Z.
Proof.
  unfold Qltb. rewrite cents_le_epsilon.
  destruct (Z.leb_spec k 0), (Z.ltb_spec 0 k); simpl; auto; lia.
Qed.

Lemma cents_lt_neg_epsilon k : Qltb (cents k) (- epsilon) = (k <? 0)%Z.
Proof.
  unfold Qltb. apply eq_true_iff_eq.
  rewrite negb_true_iff, Z.ltb_lt, <- not_true_iff_false, Qle_bool_iff.
  unfold Qle, cents, epsilon; simpl. lia.
Qed.

Lemma cents_gt_0 k : Qltb 0 (cents k) = (0 <? k)%Z.
Proof.
  unfold Qltb. apply eq_true_iff_eq.
  rewrite negb_true_iff, Z.ltb_lt, <- not_true_iff_false, Qle_bool_iff.
  unfold Qle, cents; simpl. lia.
Qed.

Lemma cents_inj j k : cents j == cents k -> j = k.
Proof. unfold Qeq, cents; simpl. lia. Qed.

Lemma cents_plus j k : cents j + cents k == cents (j + k).
Proof. unfold Qeq, cents; simpl. lia. Qed.

Lemma cents_minus j k : cents j - cents k == cents (j - k).
Proof. unfold Qeq, cents; simpl. lia. Qed.

Lemma cents_min j k : Qmin (cents j) (cents k) == cents (Z.min j k).
Proof.
  destruct (Z.le_ge_cases j k) as [L|L].
  - rewrite Z.min_l by assumption. apply Q.min_l.
    unfold Qle, cents; simpl; lia.
  - rewrite Z.min_r by lia. apply Q.min_r.
    unfold Qle, cents; simpl; lia.
Qed.

(** ** Failing expenses *)

Lemma mem_In {K} `{KeyOk K} (x : K) (l : list K) : mem x l = true <-> In x l.
Proof.
  unfold mem. rewrite existsb_exists. split.
  - intros [y [I E]]. apply key_eqb_eq in E; subst; exact I.
  - intros I. exists x. split; [exact I | apply key_eqb_refl].
Qed.

Lemma unknown_selector_raises expense :
  mem (lower (strip (Expense.strategy_name expense)))
      ["equal"; "unequal"; "amounts"; "percent"; "percentage"; "percents";
       "shares"; "ratio"]%string = false ->
  Expense.calculate_splits expense =
  Raise (ValueError (Unknown_split_type (Expense.strategy_name expense))).
Proof.
  unfold Expense.calculate_splits, strategy_from_name, mem. simpl.
  intros M. repeat (apply orb_false_elim in M; destruct M as [-> M]).
  reflexivity.
Qed.

Lemma empty_participants_raises amount details :
  EqualSplit.calculate_shares amount [] details =
  Raise (ValueError No_participants).
Proof. reflexivity. Qed.

Lemma key_mismatch_raises amount participants amounts :
  set_eqb (dict_keys amounts) (dict_keys (email_to_user_of participants)) = false ->
  exists missing extra,
    UnequalSplit.calculate_shares amount participants
      (Some {| Details.amounts := Some amounts; Details.percents := None;
               Details.shares := None |}) =
    Raise (ValueError (Keys_must_match "amounts" missing extra)).
Proof.
  intros M. unfold UnequalSplit.calculate_shares. rewrite M. simpl. eauto.
Qed.

Lemma wrong_total_raises amount participants amounts :
  set_eqb (dict_keys amounts) (dict_keys (email_to_user_of participants)) = true ->
  ~ round2 amount == round2 (py_sum (dict_values amounts)) ->
  UnequalSplit.calculate_shares amount participants
    (Some {| Details.amounts := Some amounts; Details.percents := None;
             Details.shares := None |}) =
  Raise (ValueError (Amounts_must_sum (round2 (py_sum (dict_values amounts)))
                                      (round2 amount))).
Proof.
  intros M N. unfold UnequalSplit.calculate_shares. rewrite M. simpl.
  destruct (Qeq_bool _ _) eqn:E; [|reflexivity].
  apply Qeq_bool_iff in E. contradiction.
Qed.

Lemma nonpositive_weight_raises amount participants shares_map :
  set_eqb (dict_keys shares_map) (dict_keys (email_to_user_of participants)) = true ->
  (fold_left Z.add (dict_values shares_map) 0 <= 0)%Z ->
  SharesSplit.calculate_shares amount participants
    (Some {| Details.amounts := None; Details.percents := None;
             Details.shares := Some shares_map |}) =
  Raise (ValueError Total_shares_must_be_positive).
Proof.
  intros M N. unfold SharesSplit.calculate_shares. rewrite M. simpl.
  apply Z.leb_le in N. rewrite N. reflexivity.
Qed.

(** C8.  An expense whose split configuration is rejected leaves the debt
    map as it was: [update_debts_for_expense] raises the error of
    [calculate_splits] and returns the manager it was given. *)
Theorem invalid_split_writes_no_debt
    (self : DebtManager.t) (expense : Expense.t) (e : exn) :
  Expense.calculate_splits expense = Raise e ->
  DebtManager.update_debts_for_expense self expense = (self, Raise e) /\
  DebtManager.debts (fst (DebtManager.update_debts_for_expense self expense)) =
  DebtManager.debts self.
Proof.
  intros R. unfold DebtManager.update_debts_for_expense. rewrite R.
  split; reflexivity.
Qed.

Lemma invalid_split_writes_no_debt_witness :
  let ledger :=
    {| DebtManager.debts := [(("b@x.com", "a@x.com")%string, cents 1250)] |} in
  DebtManager.update_debts_for_expense ledger expense_unknown_policy =
    (ledger, Raise (ValueError (Unknown_split_type "halves"))) /\
  DebtManager.debts
    (fst (DebtManager.update_debts_for_expense ledger expense_unknown_policy)) =
  DebtManager.debts ledger.
Proof.
  apply (@invalid_split_writes_no_debt _ expense_unknown_policy).
  reflexivity.
Defined.

(** C10.  [Group.add_expense] appends the expense to the history before it
    updates the debts: when the members check passes and the split
    configuration is rejected, the error comes out of a group whose history
    has the expense and whose debts are untouched. *)
Theorem add_expense_keeps_failed_expense
    (self : Group.t) (expense : Expense.t) (e : exn) :
  (forall p, In p (Expense.participants expense ++ [Expense.payer expense]) ->
             In (User.email p) (map User.email (Group.members self))) ->
  Expense.calculate_splits expense = Raise e ->
  Group.add_expense self expense =
  ({| Group.name := Group.name self;
      Group.members := Group.members self;
      Group.expenses := Group.expenses self ++ [expense];
      Group.debt_manager := Group.debt_manager self |}, Raise e).
Proof.
  intros M R. unfold Group.add_expense.
  destruct (find _ _) as [p|] eqn:F.
  - apply find_some in F. destruct F as [I N].
    apply M in I. apply mem_In in I. rewrite I in N. discriminate.
  - unfold DebtManager.update_debts_for_expense. rewrite R. reflexivity.
Qed.

Lemma add_expense_keeps_failed_expense_witness :
  let a := {| User.name := "A"; User.email := "a@x.com" |} in
  let b := {| User.name := "B"; User.email := "b@x.com" |} in
  let ledger :=
    {| DebtManager.debts := [(("b@x.com", "a@x.com")%string, cents 1250)] |} in
  Group.add_expense
    {| Group.name := "flat"; Group.members := [a; b]; Group.expenses := [];
       Group.debt_manager := ledger |} expense_unknown_policy =
  ({| Group.name := "flat"; Group.members := [a; b];
      Group.expenses := [expense_unknown_policy];
      Group.debt_manager := ledger |},
   Raise (ValueError (Unknown_split_type "halves"))).
Proof.
  intros a b ledger.
  apply (@add_expense_keeps_failed_expense
           {| Group.name := "flat"; Group.members := [a; b];
              Group.expenses := []; Group.debt_manager := ledger |}
           expense_unknown_policy).
  - simpl. intros p [<-|[<-|[<-|[]]]]; simpl; auto.
  - reflexivity.
Defined.

(** ** Settling up *)

Lemma dict_mem_get {K V} `{KeyOk K} (d : dict K V) k :
  dict_mem d k = match dict_get d k with Some _ => true | None => false end.
Proof. reflexivity. Qed.



Lemma round2_zero_le_epsilon x y :
  x == y -> Qle_bool (round2 (x - y)) epsilon = true.
Proof. intros E. apply round2_nonpos. lra. Qed.

(** C5, as the code has it.  What [settle_up] does to the ledger before it
    collapses it.  (1) The entry payer->receiver exists: the payment is
    subtracted from it, the result is rounded to two decimals, and the entry
    is removed when the rounded result is at most epsilon, in particular
    when the debt is paid exactly.  (2) It does not exist and
    receiver->payer does: the payment is added to that entry, rounded to two
    decimals.  (3) Neither exists: receiver->payer is created with the
    payment rounded to two decimals.  A payment of 20.00 from A to B against
    B->A 30.00 leaves B->A 50.00. *)
Theorem settle_up_three_cases
    (self : DebtManager.t) (payer receiver : User.t) (amount : Q) :
  NoDup (dict_keys (DebtManager.debts self)) ->
  let key := (User.email payer, User.email receiver) in
  let opp_key := (User.email receiver, User.email payer) in
  let before := DebtManager.debts self in
  let after :=
    DebtManager.debts (DebtManager.settle_up_entry self payer receiver amount) in
  DebtManager.settle_up self payer receiver amount =
    DebtManager.simplify_debts {| DebtManager.debts := after |} /\
  match dict_get before key, dict_get before opp_key with
  | Some a, _ =>
      after = (if Qle_bool (round2 (a - amount)) epsilon
               then dict_pop before key
               else dict_set before key (round2 (a - amount))) /\
      (Qle_bool (round2 (a - amount)) epsilon = true ->
       dict_get after key = None) /\
      (a == amount -> dict_get after key = None)
  | None, Some b => after = dict_set before opp_key (round2 (b + amount))
  | None, None => after = before ++ [(opp_key, round2 amount)]
  end /\
  DebtManager.settle_up
    {| DebtManager.debts := [(("b@x.com", "a@x.com")%string, cents 3000)] |}
    user_A user_B (cents 2000) =
  {| DebtManager.debts := [(("b@x.com", "a@x.com")%string, cents 5000)] |}.
Proof.
  intros ND key opp_key before after. split; [|split].
  - unfold DebtManager.settle_up, after.
    destruct (DebtManager.settle_up_entry self payer receiver amount);
      reflexivity.
  - unfold after, DebtManager.settle_up_entry, dict_mem, dict_get_default.
    fold key opp_key before.
    destruct (dict_get before key) as [a|] eqn:G; simpl.
    + assert (P : Qle_bool (round2 (a - amount)) epsilon = true ->
                  dict_get (if Qle_bool (round2 (a - amount)) epsilon
                            then dict_pop before key
                            else dict_set before key (round2 (a - amount)))
                           key = None).
      { intros ->. apply dict_get_pop_same; exact ND. }
      destruct (Qle_bool (round2 (a - amount)) epsilon) eqn:L; simpl.
      * rewrite dict_pop_set. repeat split; auto.
      * repeat split; [discriminate|].
        intros E. rewrite (round2_zero_le_epsilon E) in L. discriminate.
    + destruct (dict_get before opp_key) as [b|] eqn:G'; simpl; [reflexivity|].
      apply dict_set_fresh; exact G'.
  - vm_compute. reflexivity.
Qed.

Lemma settle_up_three_cases_witness :
  let ledger :=
    {| DebtManager.debts := [(("a@x.com", "b@x.com")%string, cents 3000);
                             (("c@x.com", "b@x.com")%string, cents 500)] |} in
  DebtManager.settle_up ledger user_A user_B (cents 3000) =
    DebtManager.simplify_debts
      {| DebtManager.debts := [(("c@x.com", "b@x.com")%string, cents 500)] |} /\
  DebtManager.debts
    (DebtManager.settle_up_entry ledger user_A user_B (cents 3000)) =
    [(("c@x.com", "b@x.com")%string, cents 500)].
Proof.
  intros ledger.
  destruct (@settle_up_three_cases ledger user_A user_B (cents 3000))
    as [S [[E _] _]].
  - repeat constructor; simpl; intuition discriminate.
  - split; [exact S | exact E].
Defined.

(** C5, as the specification words it, fails for a payment below the cent.
    Against A->B 0.01 a payment of 0.003 leaves 0.007, which is at most
    epsilon, yet the entry stays, at round(0.007, 2) = 0.01.  And a payment
    of 0.125 with no debt either way creates B->A 0.12, not 0.125. *)
Lemma settle_up_rounds_the_payment :
  let ledger :=
    {| DebtManager.debts := [(("a@x.com", "b@x.com")%string, cents 1)] |} in
  cents 1 - (3 # 1000) <= epsilon /\
  DebtManager.debts
    (DebtManager.settle_up_entry ledger user_A user_B (3 # 1000)) =
    [(("a@x.com", "b@x.com")%string, cents 1)] /\
  DebtManager.debts (DebtManager.settle_up ledger user_A user_B (3 # 1000)) =
    [(("a@x.com", "b@x.com")%string, cents 1)] /\
  DebtManager.debts
    (DebtManager.settle_up_entry DebtManager.new user_A user_B (125 # 1000)) =
    [(("b@x.com", "a@x.com")%string, cents 12)] /\
  ~ cents 12 == 125 # 1000.
Proof.
  split; [vm_compute; discriminate|].
  split; [vm_compute; reflexivity|].
  split; [vm_compute; reflexivity|].
  split; [vm_compute; reflexivity|].
  vm_compute. discriminate.
Qed.

(** ** The scenario of an expense of 1000.00 *)



(** ** Equal split *)

Lemma fold_left_Qplus l acc : fold_left Qplus l acc == acc + py_sum l.
Proof.
  unfold py_sum. revert acc. induction l as [|x l IH]; intros acc; simpl.
  - lra.
  - rewrite IH, (IH (0 + x)). lra.
Qed.

Lemma py_sum_cons x l : py_sum (x :: l) == x + py_sum l.
Proof. unfold py_sum at 1; simpl. rewrite fold_left_Qplus. lra. Qed.

Lemma py_sum_app l l' : py_sum (l ++ l') == py_sum l + py_sum l'.
Proof.
  induction l as [|x l IH]; simpl.
  - unfold py_sum at 2; simpl. lra.
  - rewrite !py_sum_cons, IH. lra.
Qed.

Lemma py_sum_set {K} `{KeyOk K} (d : dict K Q) k v :
  py_sum (dict_values (dict_set d k v)) ==
  py_sum (dict_values d) - dict_get_default d k 0 + v.
Proof.
  unfold dict_get_default, dict_values.
  induction d as [|[k0 v0] d IH]; simpl.
  - rewrite !py_sum_cons. unfold py_sum; simpl. lra.
  - destruct (key_eqb k0 k) eqn:E; simpl.
    + rewrite !py_sum_cons. lra.
    + rewrite !py_sum_cons, IH. lra.
Qed.

Lemma py_sum_const {K} (d : dict K Q) b :
  Forall (fun kv => snd kv = cents b) d ->
  py_sum (dict_values d) == cents (Z.of_nat (List.length d) * b).
Proof.
  induction 1 as [|[k v] d Hv _ IH].
  - reflexivity.
  - simpl in Hv; subst v. cbn [dict_values map snd List.length].
    rewrite py_sum_cons. unfold dict_values in IH. rewrite IH, cents_plus.
    replace (b + Z.of_nat (List.length d) * b)%Z
      with (Z.of_nat (S (List.length d)) * b)%Z by lia.
    reflexivity.
Qed.

Section DictOf.
Context {A K V : Type} `{KeyOk K} (key : A -> K) (val : A -> V).

Lemma dict_of_acc_values (P : V -> Prop) xs acc :
  (forall x, P (val x)) ->
  Forall (fun kv => P (snd kv)) acc ->
  Forall (fun kv => P (snd kv))
         (fold_left (fun d x => dict_set d (key x) (val x)) xs acc).
Proof.
  intros HP. revert acc. induction xs as [|x xs IH]; intros acc Hacc; simpl.
  - exact Hacc.
  - apply IH. clear IH. induction Hacc as [|[k v] d Hv Hd IHd]; simpl.
    + constructor; [apply HP|constructor].
    + destruct (key_eqb k (key x)); constructor; auto. apply HP.
Qed.

Lemma dict_of_acc_mem xs acc k :
  (In k (map key xs) \/ In k (dict_keys acc)) ->
  In k (dict_keys (fold_left (fun d x => dict_set d (key x) (val x)) xs acc)).
Proof.
  revert acc. induction xs as [|x xs IH]; intros acc; simpl.
  - intros [[]|I]; exact I.
  - intros [[E|I]|I]; apply IH.
    + right. apply dict_keys_set_In. left; auto.
    + left; exact I.
    + right. apply dict_keys_set_In. right; exact I.
Qed.
End DictOf.

Lemma dict_get_Forall {K V} `{KeyOk K} (P : V -> Prop) (d : dict K V) k :
  Forall (fun kv => P (snd kv)) d -> In k (dict_keys d) ->
  exists v, dict_get d k = Some v /\ P v.
Proof.
  intros F I. destruct (dict_get d k) as [v|] eqn:G.
  - exists v. split; [reflexivity|].
    apply dict_get_In in G. rewrite Forall_forall in F.
    apply (F _ G).
  - apply dict_get_None in G. contradiction.
Qed.




(** ** Amounts in hundredths *)

Lemma of_cents_keys {K} (l : list (K * Z)) : dict_keys (of_cents l) = dict_keys l.
Proof. unfold dict_keys, of_cents. rewrite map_map. reflexivity. Qed.

Lemma of_cents_length {K} (l : list (K * Z)) :
  List.length (of_cents l) = List.length l.
Proof. apply length_map. Qed.

Lemma of_cents_app {K} (l l' : list (K * Z)) :
  of_cents (l ++ l') = of_cents l ++ of_cents l'.
Proof. apply map_app. Qed.

Lemma of_cents_get {K} `{KeyOk K} (l : dict K Z) k :
  dict_get (of_cents l) k = option_map cents (dict_get l k).
Proof.
  induction l as [|[k0 z0] l IH]; simpl; [reflexivity|].
  destruct (key_eqb k0 k); [reflexivity | exact IH].
Qed.

Lemma of_cents_set {K} `{KeyOk K} (l : dict K Z) k z :
  dict_set (of_cents l) k (cents z) = of_cents (dict_set l k z).
Proof.
  induction l as [|[k0 z0] l IH]; simpl; [reflexivity|].
  destruct (key_eqb k0 k); simpl; [reflexivity|].
  rewrite IH. reflexivity.
Qed.

Lemma of_cents_get_default {K} `{KeyOk K} (l : dict K Z) k :
  dict_get_default (of_cents l) k 0 == cents (dict_get_default l k 0%Z).
Proof.
  unfold dict_get_default. rewrite of_cents_get.
  destruct (dict_get l k); simpl; reflexivity.
Qed.

Lemma of_to_cents {K} (l : list (K * Q)) :
  Forall (fun kq => exists z, snd kq = cents z) l -> of_cents (to_cents l) = l.
Proof.
  induction 1 as [|[k q] l [z Hz] _ IH]; simpl; [reflexivity|].
  simpl in Hz; subst q. rewrite IH. reflexivity.
Qed.

Lemma to_of_cents {K} (l : list (K * Z)) : to_cents (of_cents l) = l.
Proof.
  induction l as [|[k z] l IH]; simpl; [reflexivity|].
  rewrite IH; reflexivity.
Qed.

Lemma cents_le j k : Qle_bool (cents j) (cents k) = (j <=? k)%Z.
Proof.
  apply eq_true_iff_eq. rewrite Qle_bool_iff, Z.leb_le.
  unfold Qle, cents; simpl. lia.
Qed.

(** ** The net balances are amounts in hundredths *)

Lemma net_step_is_cents (net : dict string Z) item :
  exists net',
    DebtManager.net_step (of_cents net) item = of_cents net' /\
    (NoDup (dict_keys net) -> NoDup (dict_keys net')).
Proof.
  destruct item as [[d c] amt]. unfold DebtManager.net_step.
  destruct (round2_is_cents (dict_get_default (of_cents net) d 0 - amt))
    as [z1 ->].
  rewrite of_cents_set.
  destruct (round2_is_cents
              (dict_get_default (of_cents (dict_set net d z1)) c 0 + amt))
    as [z2 ->].
  rewrite of_cents_set. eexists. split; [reflexivity|].
  intros ND. apply dict_set_NoDup, dict_set_NoDup, ND.
Qed.

Lemma net_balances_cents_from debts (net : dict string Z) :
  NoDup (dict_keys net) ->
  exists net',
    fold_left DebtManager.net_step debts (of_cents net) = of_cents net' /\
    NoDup (dict_keys net').
Proof.
  revert net. induction debts as [|item debts IH]; intros net ND; simpl.
  - exists net; auto.
  - destruct (net_step_is_cents net item) as [net1 [-> ND1]].
    apply IH, ND1, ND.
Qed.

Lemma net_balances_cents debts :
  DebtManager.net_balances debts = of_cents (net_cents debts) /\
  NoDup (dict_keys (net_cents debts)).
Proof.
  destruct (@net_balances_cents_from debts []) as [net [E ND]];
    [constructor|].
  unfold net_cents, DebtManager.net_balances.
  change (@nil (string * Q)) with (of_cents (@nil (string * Z))).
  rewrite E, to_of_cents. auto.
Qed.

Lemma debtors_of_cents (net : dict string Z) :
  DebtManager.debtors_of (of_cents net) = of_cents (debtor_cents net).
Proof.
  unfold DebtManager.debtors_of, debtor_cents.
  induction net as [|[u z] net IH]; simpl; [reflexivity|].
  rewrite cents_lt_neg_epsilon.
  destruct (z <? 0)%Z; simpl; rewrite IH; reflexivity.
Qed.

Lemma creditors_of_cents (net : dict string Z) :
  DebtManager.creditors_of (of_cents net) = of_cents (creditor_cents net).
Proof.
  unfold DebtManager.creditors_of, creditor_cents.
  induction net as [|[u z] net IH]; simpl; [reflexivity|].
  rewrite cents_gt_epsilon.
  destruct (0 <? z)%Z; simpl; rewrite IH; reflexivity.
Qed.

Lemma insert_sorted_cents x (l : list (string * Z)) :
  insert_sorted by_amount (fst x, cents (snd x)) (of_cents l) =
  of_cents (insert_sorted by_cents x l).
Proof.
  induction l as [|y l IH]; simpl; [reflexivity|].
  unfold by_amount, by_cents; simpl. rewrite cents_le.
  destruct (snd x <=? snd y)%Z; simpl; [reflexivity|].
  unfold by_amount, by_cents in IH. rewrite IH. reflexivity.
Qed.

Lemma stable_sort_cents (l : list (string * Z)) :
  stable_sort by_amount (of_cents l) = of_cents (stable_sort by_cents l).
Proof.
  induction l as [|x l IH]; [reflexivity|].
  change (stable_sort by_amount (of_cents (x :: l)))
    with (insert_sorted by_amount (fst x, cents (snd x))
            (stable_sort by_amount (of_cents l))).
  rewrite IH. apply insert_sorted_cents.
Qed.

(** ** The matching loop *)

Lemma match_loop_step fuel d x ds c y cs simplified :
  (1 <= x)%Z -> (1 <= y)%Z ->
  DebtManager.match_loop (S fuel) (of_cents ((d, x) :: ds))
    (of_cents ((c, y) :: cs)) simplified =
  DebtManager.match_loop fuel
    (of_cents (if (x <=? y)%Z then ds else (d, (x - y)%Z) :: ds))
    (of_cents (if (y <=? x)%Z then cs else (c, (y - x)%Z) :: cs))
    (dict_set simplified (d, c)
       (round2 (dict_get_default simplified (d, c) 0 + cents (Z.min x y)))).
Proof.
  intros Hx Hy. cbn [DebtManager.match_loop of_cents map fst snd].
  rewrite (round2_value (cents_min x y)).
  rewrite cents_gt_0.
  replace (0 <? Z.min x y)%Z with true by (symmetry; apply Z.ltb_lt; lia).
  rewrite (round2_value (cents_minus x (Z.min x y))).
  rewrite (round2_value (cents_minus y (Z.min x y))).
  rewrite !cents_le_epsilon.
  replace (x - Z.min x y <=? 0)%Z with (x <=? y)%Z
    by (apply eq_true_iff_eq; rewrite !Z.leb_le; lia).
  replace (y - Z.min x y <=? 0)%Z with (y <=? x)%Z
    by (apply eq_true_iff_eq; rewrite !Z.leb_le; lia).
  destruct (Z.leb_spec x y), (Z.leb_spec y x); cbn [of_cents map fst snd];
    repeat f_equal; lia.
Qed.

Lemma greedy_positive fuel ds cs :
  positive_amounts ds -> positive_amounts cs ->
  positive_amounts (greedy fuel ds cs).
Proof.
  unfold positive_amounts.
  revert ds cs. induction fuel as [|fuel IH]; intros ds cs Pd Pc; simpl.
  - constructor.
  - destruct ds as [|[d x] ds]; [constructor|].
    destruct cs as [|[c y] cs]; [constructor|].
    inversion Pd as [|? ? Hx Pd']; inversion Pc as [|? ? Hy Pc']; subst.
    simpl in Hx, Hy. constructor; [simpl; lia|].
    apply IH.
    + destruct (Z.leb_spec x y); [assumption|]. constructor; [simpl; lia|assumption].
    + destruct (Z.leb_spec y x); [assumption|]. constructor; [simpl; lia|assumption].
Qed.

Lemma greedy_keys fuel ds cs k :
  In k (dict_keys (greedy fuel ds cs)) ->
  In (fst k) (dict_keys ds) /\ In (snd k) (dict_keys cs).
Proof.
  revert ds cs. induction fuel as [|fuel IH]; intros ds cs; simpl; [tauto|].
  destruct ds as [|[d x] ds]; [simpl; tauto|].
  destruct cs as [|[c y] cs]; [simpl; tauto|].
  simpl. intros [<-|I]; [simpl; auto|].
  apply IH in I. destruct I as [Id Ic]. split.
  - destruct (x <=? y)%Z; simpl in Id; tauto.
  - destruct (y <=? x)%Z; simpl in Ic; tauto.
Qed.

Lemma match_loop_greedy fuel ds cs simplified :
  positive_amounts ds -> positive_amounts cs ->
  NoDup (dict_keys ds) -> NoDup (dict_keys cs) ->
  (forall k, In k (dict_keys simplified) ->
             ~ (In (fst k) (dict_keys ds) /\ In (snd k) (dict_keys cs))) ->
  DebtManager.match_loop fuel (of_cents ds) (of_cents cs) simplified =
  simplified ++ of_cents (greedy fuel ds cs).
Proof.
  unfold positive_amounts. revert ds cs simplified.
  induction fuel as [|fuel IH]; intros ds cs simplified Pd Pc Nd Nc Fresh.
  - simpl. rewrite app_nil_r. reflexivity.
  - destruct ds as [|[d x] ds]; [simpl; rewrite app_nil_r; reflexivity|].
    destruct cs as [|[c y] cs];
      [simpl; rewrite app_nil_r; reflexivity|].
    inversion Pd as [|? ? Hx Pd']; inversion Pc as [|? ? Hy Pc']; subst.
    inversion Nd as [|? ? Id Nd']; inversion Nc as [|? ? Ic Nc']; subst.
    simpl in Hx, Hy.
    rewrite match_loop_step by assumption.
    assert (G : dict_get simplified (d, c) = None).
    { apply dict_get_None. intros I. apply (Fresh _ I). simpl; auto. }
    unfold dict_get_default. rewrite G.
    assert (E0 : 0 + cents (Z.min x y) == cents (Z.min x y)) by lra.
    rewrite (round2_value E0). rewrite dict_set_fresh by exact G.
    rewrite IH.
    + rewrite <- app_assoc. reflexivity.
    + destruct (Z.leb_spec x y); [assumption|].
      constructor; [simpl; lia|assumption].
    + destruct (Z.leb_spec y x); [assumption|].
      constructor; [simpl; lia|assumption].
    + destruct (x <=? y)%Z; [assumption|]. simpl. constructor; assumption.
    + destruct (y <=? x)%Z; [assumption|]. simpl. constructor; assumption.
    + intros k I [Kd Kc].
      unfold dict_keys in I. rewrite map_app, in_app_iff in I.
      destruct I as [I|[<-|[]]].
      * apply (Fresh _ I). split.
        -- destruct (x <=? y)%Z; simpl in Kd |- *; tauto.
        -- destruct (y <=? x)%Z; simpl in Kc |- *; tauto.
      * simpl in Kd, Kc.
        destruct (Z.leb_spec x y); [contradiction|].
        destruct (Z.leb_spec y x); [contradiction|lia].
Qed.

(** ** Sorting *)

Section SortFacts.
Context {A : Type} (leb : A -> A -> bool).

Lemma insert_sorted_perm x l : Permutation (insert_sorted leb x l) (x :: l).
Proof.
  induction l as [|y l IH]; simpl; [reflexivity|].
  destruct (leb x y); [reflexivity|].
  rewrite IH. apply perm_swap.
Qed.

Lemma stable_sort_perm l : Permutation (stable_sort leb l) l.
Proof.
  induction l as [|x l IH]; simpl; [reflexivity|].
  rewrite insert_sorted_perm. constructor. exact IH.
Qed.

Lemma stable_sort_length l : List.length (stable_sort leb l) = List.length l.
Proof. apply Permutation_length, stable_sort_perm. Qed.
End SortFacts.

Lemma stable_sort_keys {K V} (leb : K * V -> K * V -> bool) (l : list (K * V)) :
  Permutation (dict_keys (stable_sort leb l)) (dict_keys l).
Proof. apply Permutation_map, stable_sort_perm. Qed.

Lemma NoDup_filter_keys {K V} (f : K * V -> bool) (l : list (K * V)) :
  NoDup (dict_keys l) -> NoDup (dict_keys (filter f l)).
Proof.
  induction l as [|[k v] l IH]; simpl; [auto|].
  intros ND; inversion ND as [|? ? NI ND']; subst.
  destruct (f (k, v)); simpl; [|auto].
  constructor; [|auto]. intros I; apply NI.
  unfold dict_keys in *. apply in_map_iff in I. destruct I as [[k' v'] [E I]].
  apply filter_In in I. destruct I as [I _].
  simpl in E; subst. change k with (fst (k, v')). apply in_map; exact I.
Qed.

(** ** The debtors and the creditors *)

Lemma debtor_cents_keys net :
  dict_keys (debtor_cents net) =
  dict_keys (filter (fun uz => (snd uz <? 0)%Z) net).
Proof. unfold debtor_cents, dict_keys. rewrite map_map. reflexivity. Qed.

Lemma debtor_cents_positive net : positive_amounts (debtor_cents net).
Proof.
  unfold positive_amounts, debtor_cents. apply Forall_forall.
  intros [u z] I. apply in_map_iff in I. destruct I as [[u' z'] [E I]].
  apply filter_In in I. destruct I as [_ L]. apply Z.ltb_lt in L.
  inversion E; subst. simpl in *. lia.
Qed.

Lemma creditor_cents_positive net : positive_amounts (creditor_cents net).
Proof.
  unfold positive_amounts, creditor_cents. apply Forall_forall.
  intros [u z] I. apply filter_In in I. destruct I as [_ L].
  apply Z.ltb_lt in L. simpl in *. lia.
Qed.

Lemma sorted_debtors_ok debts :
  positive_amounts (sorted_debtors debts) /\
  NoDup (dict_keys (sorted_debtors debts)).
Proof.
  unfold sorted_debtors. split.
  - unfold positive_amounts.
    eapply Permutation_Forall;
      [symmetry; apply stable_sort_perm | apply debtor_cents_positive].
  - eapply Permutation_NoDup; [symmetry; apply stable_sort_keys|].
    rewrite debtor_cents_keys. apply NoDup_filter_keys.
    apply net_balances_cents.
Qed.

Lemma sorted_creditors_ok debts :
  positive_amounts (sorted_creditors debts) /\
  NoDup (dict_keys (sorted_creditors debts)).
Proof.
  unfold sorted_creditors. split.
  - unfold positive_amounts.
    eapply Permutation_Forall;
      [symmetry; apply stable_sort_perm | apply creditor_cents_positive].
  - eapply Permutation_NoDup; [symmetry; apply stable_sort_keys|].
    apply NoDup_filter_keys. apply net_balances_cents.
Qed.

(** No user is both a net debtor and a net creditor. *)
Lemma debtor_not_creditor debts u :
  In u (dict_keys (sorted_debtors debts)) ->
  In u (dict_keys (sorted_creditors debts)) -> False.
Proof.
  unfold sorted_debtors, sorted_creditors. intros Id Ic.
  apply (Permutation_in _ (stable_sort_keys _ _)) in Id.
  apply (Permutation_in _ (stable_sort_keys _ _)) in Ic.
  rewrite debtor_cents_keys in Id.
  unfold creditor_cents, dict_keys in Id, Ic.
  apply in_map_iff in Id. destruct Id as [[u1 z1] [E1 I1]].
  apply in_map_iff in Ic. destruct Ic as [[u2 z2] [E2 I2]].
  simpl in E1, E2; subst u1 u2.
  apply filter_In in I1. destruct I1 as [I1 L1].
  apply filter_In in I2. destruct I2 as [I2 L2].
  destruct (net_balances_cents debts) as [_ ND].
  apply In_dict_get in I1; [|exact ND]. apply In_dict_get in I2; [|exact ND].
  rewrite I1 in I2. inversion I2; subst.
  apply Z.ltb_lt in L1. apply Z.ltb_lt in L2. simpl in *. lia.
Qed.

Lemma filter_positive_cents {K} (l : list (K * Z)) :
  positive_amounts l ->
  filter (fun kv => Qltb epsilon (snd kv)) (of_cents l) = of_cents l.
Proof.
  unfold positive_amounts. induction 1 as [|[k z] l Hz _ IH]; simpl; [reflexivity|].
  rewrite cents_gt_epsilon. simpl in Hz.
  replace (0 <? z)%Z with true by (symmetry; apply Z.ltb_lt; lia).
  rewrite IH. reflexivity.
Qed.

(** What [simplify_debts] leaves: the transfers of the matching. *)
Lemma simplify_debts_transfers self :
  DebtManager.debts (DebtManager.simplify_debts self) =
  of_cents (transfers (DebtManager.debts self)).
Proof.
  unfold DebtManager.simplify_debts, transfers. cbn [DebtManager.debts].
  destruct (net_balances_cents (DebtManager.debts self)) as [-> _].
  rewrite debtors_of_cents, creditors_of_cents, !stable_sort_cents.
  fold (sorted_debtors (DebtManager.debts self)).
  fold (sorted_creditors (DebtManager.debts self)).
  rewrite !of_cents_length.
  destruct (sorted_debtors_ok (DebtManager.debts self)) as [Pd Nd].
  destruct (sorted_creditors_ok (DebtManager.debts self)) as [Pc Nc].
  rewrite match_loop_greedy by (auto; intros k []).
  simpl. apply filter_positive_cents, greedy_positive; assumption.
Qed.

(** Every turn of the loop drops a debtor or a creditor, so
    [len(debtors) + len(creditors)] turns are enough: more fuel changes
    nothing. *)
Lemma greedy_fuel fuel fuel' ds cs :
  (List.length ds + List.length cs <= fuel)%nat ->
  (List.length ds + List.length cs <= fuel')%nat ->
  greedy fuel ds cs = greedy fuel' ds cs.
Proof.
  revert fuel' ds cs.
  induction fuel as [|fuel IH]; intros fuel' ds cs L L'.
  - destruct ds, cs; simpl in L; try lia. destruct fuel'; reflexivity.
  - destruct ds as [|[d x] ds];
      [destruct fuel'; reflexivity|].
    destruct cs as [|[c y] cs];
      [destruct fuel'; reflexivity|].
    destruct fuel' as [|fuel']; [simpl in L'; lia|].
    simpl in L, L' |- *. f_equal.
    destruct (Z.leb_spec x y), (Z.leb_spec y x); try lia;
      apply IH; simpl; lia.
Qed.

Lemma match_loop_fuel debts extra simplified :
  (forall k, In k (dict_keys simplified) ->
     ~ (In (fst k) (dict_keys (sorted_debtors debts)) /\
        In (snd k) (dict_keys (sorted_creditors debts)))) ->
  let ds := sorted_debtors debts in
  let cs := sorted_creditors debts in
  DebtManager.match_loop (List.length ds + List.length cs + extra)
    (of_cents ds) (of_cents cs) simplified =
  DebtManager.match_loop (List.length ds + List.length cs)
    (of_cents ds) (of_cents cs) simplified.
Proof.
  intros Fresh ds cs.
  destruct (sorted_debtors_ok debts) as [Pd Nd].
  destruct (sorted_creditors_ok debts) as [Pc Nc].
  rewrite !match_loop_greedy by assumption.
  f_equal. f_equal. apply greedy_fuel; lia.
Qed.

Lemma greedy_length fuel ds cs :
  (List.length (greedy fuel ds cs) <= List.length ds + List.length cs - 1)%nat.
Proof.
  revert ds cs. induction fuel as [|fuel IH]; intros ds cs; simpl; [lia|].
  destruct ds as [|[d x] ds]; [simpl; lia|].
  destruct cs as [|[c y] cs]; [simpl; lia|].
  simpl.
  destruct (Z.leb_spec x y), (Z.leb_spec y x); try lia.
  - specialize (IH ds cs). lia.
  - specialize (IH ds ((c, (y - x)%Z) :: cs)). simpl in IH.
    destruct ds; [destruct fuel; simpl in *; lia | simpl in *; lia].
  - specialize (IH ((d, (x - y)%Z) :: ds) cs). simpl in IH.
    destruct cs; [destruct fuel; simpl in *; lia | simpl in *; lia].
Qed.

(** ** Canonical form *)

Lemma In_of_cents {K} (l : list (K * Z)) k v :
  In (k, v) (of_cents l) -> exists z, v = cents z /\ In (k, z) l.
Proof.
  unfold of_cents. intros I. apply in_map_iff in I.
  destruct I as [[k' z] [E I]]. inversion E; subst. eauto.
Qed.

Lemma simplify_debts_canonical self :
  canonical (DebtManager.debts (DebtManager.simplify_debts self)).
Proof.
  rewrite simplify_debts_transfers. set (debts := DebtManager.debts self).
  assert (Keys : forall k, In k (dict_keys (transfers debts)) ->
            In (fst k) (dict_keys (sorted_debtors debts)) /\
            In (snd k) (dict_keys (sorted_creditors debts)))
    by (intros k; apply greedy_keys).
  intros d c v I. apply In_of_cents in I. destruct I as [z [-> I]].
  assert (Ik : In (d, c) (dict_keys (transfers debts)))
    by (change (d, c) with (fst ((d, c), z)); apply in_map; exact I).
  destruct (Keys _ Ik) as [Kd Kc]. simpl in Kd, Kc.
  split; [|split].
  - intros ->. exact (debtor_not_creditor _ _ Kd Kc).
  - assert (P : positive_amounts (transfers debts)).
    { apply greedy_positive;
        [apply sorted_debtors_ok | apply sorted_creditors_ok]. }
    unfold positive_amounts in P. rewrite Forall_forall in P.
    specialize (P _ I). simpl in P.
    unfold Qlt, epsilon, cents; simpl. lia.
  - rewrite of_cents_keys. intros I'.
    destruct (Keys _ I') as [Kd' _]. simpl in Kd'.
    exact (debtor_not_creditor _ _ Kd' Kc).
Qed.

(** C4.  A ledger that has just been collapsed is in canonical form: no
    entry from a user to itself, every amount above epsilon, no pair of
    users in both directions.  This holds after [simplify_debts] alone,
    after [settle_up], and after [update_debts_for_expense] when it does
    not raise (when it raises it leaves the manager as it was). *)
Theorem collapsed_ledger_is_canonical (self : DebtManager.t) :
  canonical (DebtManager.debts (DebtManager.simplify_debts self)) /\
  (forall payer receiver amount,
     canonical (DebtManager.debts
                  (DebtManager.settle_up self payer receiver amount))) /\
  (forall expense,
     match DebtManager.update_debts_for_expense self expense with
     | (self', Ok _) => canonical (DebtManager.debts self')
     | (self', Raise _) => self' = self
     end).
Proof.
  split; [apply simplify_debts_canonical|]. split.
  - intros payer receiver amount. apply simplify_debts_canonical.
  - intros expense. unfold DebtManager.update_debts_for_expense.
    destruct (Expense.calculate_splits expense); [|reflexivity].
    apply simplify_debts_canonical.
Qed.

(** ** Number of transfers *)

(** C7, as the code has it.  With [nd] net debtors and [nc] net creditors
    the collapse leaves at most [nd + nc - 1] entries, and none when there
    is neither debtor nor creditor. *)
Theorem collapse_entry_count (self : DebtManager.t) :
  let net := DebtManager.net_balances (DebtManager.debts self) in
  let nd := List.length (DebtManager.debtors_of net) in
  let nc := List.length (DebtManager.creditors_of net) in
  (Z.of_nat (List.length (DebtManager.debts (DebtManager.simplify_debts self)))
   <= Z.max 0 (Z.of_nat nd + Z.of_nat nc - 1))%Z.
Proof.
  intros net nd nc.
  rewrite simplify_debts_transfers, of_cents_length.
  unfold nd, nc, net.
  destruct (net_balances_cents (DebtManager.debts self)) as [-> _].
  rewrite debtors_of_cents, creditors_of_cents, !of_cents_length.
  unfold transfers.
  pose proof (greedy_length
    (List.length (sorted_debtors (DebtManager.debts self)) +
     List.length (sorted_creditors (DebtManager.debts self)))
    (sorted_debtors (DebtManager.debts self))
    (sorted_creditors (DebtManager.debts self))) as L.
  assert (Ed : List.length (sorted_debtors (DebtManager.debts self)) =
               List.length (debtor_cents (net_cents (DebtManager.debts self))))
    by apply stable_sort_length.
  assert (Ec : List.length (sorted_creditors (DebtManager.debts self)) =
               List.length (creditor_cents (net_cents (DebtManager.debts self))))
    by apply stable_sort_length.
  lia.
Qed.

(** C7, as the specification words it, fails when nobody owes anything:
    the empty ledger has no debtor and no creditor, and its zero entries
    are more than [0 + 0 - 1]. *)
Lemma collapse_entry_count_empty :
  let net := DebtManager.net_balances (DebtManager.debts DebtManager.new) in
  let nd := List.length (DebtManager.debtors_of net) in
  let nc := List.length (DebtManager.creditors_of net) in
  nd = 0%nat /\ nc = 0%nat /\
  ~ (Z.of_nat (List.length
        (DebtManager.debts (DebtManager.simplify_debts DebtManager.new)))
     <= Z.of_nat nd + Z.of_nat nc - 1)%Z.
Proof.
  split; [reflexivity|]. split; [reflexivity|].
  vm_compute. intros H. apply H. reflexivity.
Qed.

(** ** Net balances of a ledger in whole cents *)

Lemma net_step_of_cents net d c amt m :
  amt == cents m ->
  DebtManager.net_step (of_cents net) ((d, c), amt) =
  of_cents (net_step_cents net ((d, c), m)).
Proof.
  intros E. unfold DebtManager.net_step, net_step_cents, bump.
  cbn [fst snd].
  assert (E1 : dict_get_default (of_cents net) d 0 - amt ==
               cents (dict_get_default net d 0 + - m)%Z).
  { rewrite of_cents_get_default, E, cents_minus.
    unfold Qeq, cents; simpl; lia. }
  rewrite (round2_value E1), of_cents_set.
  set (net1 := dict_set net d (dict_get_default net d 0 + - m)%Z).
  assert (E2 : dict_get_default (of_cents net1) c 0 + amt ==
               cents (dict_get_default net1 c 0 + m)%Z).
  { rewrite of_cents_get_default, E, cents_plus. reflexivity. }
  rewrite (round2_value E2), of_cents_set. reflexivity.
Qed.

Lemma ledger_cents_of_cents (entries : list ((string * string) * Z)) :
  ledger_cents (of_cents entries) = entries.
Proof.
  induction entries as [|[k z] entries IH]; [reflexivity|].
  cbn [ledger_cents of_cents map fst snd].
  rewrite round2_cents. f_equal. exact IH.
Qed.

Lemma cents_ledger_of_cents (entries : list ((string * string) * Z)) :
  cents_ledger (of_cents entries) = true.
Proof.
  unfold cents_ledger, of_cents. rewrite forallb_forall.
  intros [k v] I. apply in_map_iff in I. destruct I as [[k' z] [E _]].
  inversion E; subst. simpl. apply is_cents_spec. exists z; reflexivity.
Qed.

Lemma net_balances_fold debts net :
  cents_ledger debts = true ->
  fold_left DebtManager.net_step debts (of_cents net) =
  of_cents (fold_left net_step_cents (ledger_cents debts) net).
Proof.
  revert net. induction debts as [|[[d c] amt] debts IH]; intros net C.
  - reflexivity.
  - unfold cents_ledger in C. simpl in C. apply andb_true_iff in C.
    destruct C as [Ca C].
    assert (E : amt == cents (Qnum (round2 amt))).
    { unfold is_cents in Ca. apply Qeq_bool_iff in Ca.
      rewrite <- Ca at 1. rewrite round2_unfold. reflexivity. }
    cbn [fold_left ledger_cents map fst snd].
    rewrite (net_step_of_cents net d c E). apply IH. exact C.
Qed.

Lemma net_cents_fold debts :
  cents_ledger debts = true ->
  net_cents debts = fold_left net_step_cents (ledger_cents debts) [].
Proof.
  intros C. unfold net_cents, DebtManager.net_balances.
  change (@nil (string * Q)) with (of_cents (@nil (string * Z))).
  rewrite net_balances_fold by exact C. apply to_of_cents.
Qed.

Lemma total_set (net : dict string Z) u v :
  total (dict_set net u v) = (total net - dict_get_default net u 0 + v)%Z.
Proof.
  unfold dict_get_default. induction net as [|[u0 z0] net IH]; simpl.
  - lia.
  - destruct (String.eqb u0 u); simpl; [lia|]. rewrite IH. lia.
Qed.

Lemma total_bump net um : total (bump net um) = (total net + snd um)%Z.
Proof. unfold bump. rewrite total_set. lia. Qed.

Lemma total_net_step net item : total (net_step_cents net item) = total net.
Proof. unfold net_step_cents. rewrite !total_bump. simpl. lia. Qed.

Lemma total_net_fold entries net :
  total (fold_left net_step_cents entries net) = total net.
Proof.
  revert net. induction entries as [|e entries IH]; intros net; simpl.
  - reflexivity.
  - rewrite IH. apply total_net_step.
Qed.

Lemma total_perm {K} (l l' : list (K * Z)) :
  Permutation l l' -> total l = total l'.
Proof. induction 1; simpl; lia. Qed.

Lemma total_debtors_creditors net :
  total net = (total (creditor_cents net) - total (debtor_cents net))%Z.
Proof.
  unfold creditor_cents, debtor_cents.
  induction net as [|[u z] net IH]; simpl; [reflexivity|].
  destruct (Z.ltb_spec z 0), (Z.ltb_spec 0 z); simpl; lia.
Qed.

(** In a ledger of whole cents what the debtors owe is what the creditors
    are owed. *)
Lemma sorted_balanced debts :
  cents_ledger debts = true ->
  total (sorted_debtors debts) = total (sorted_creditors debts).
Proof.
  intros C. unfold sorted_debtors, sorted_creditors.
  rewrite (total_perm (stable_sort_perm by_cents _)).
  rewrite (total_perm (stable_sort_perm by_cents (creditor_cents _))).
  pose proof (total_debtors_creditors (net_cents debts)) as T.
  rewrite (net_cents_fold debts C) in T at 1.
  rewrite total_net_fold in T. simpl in T. lia.
Qed.

(** ** Conservation *)

Lemma positive_total_nil {K} (l : list (K * Z)) :
  positive_amounts l -> total l = 0%Z -> l = [].
Proof.
  unfold positive_amounts. intros P T. destruct P as [|[k z] l Hz P]; [reflexivity|].
  exfalso. simpl in *.
  assert (0 <= total l)%Z.
  { clear T. induction P as [|[k' z'] l' Hz' _ IH]; simpl in *; lia. }
  lia.
Qed.

Lemma positive_total_nonneg {K} (l : list (K * Z)) :
  positive_amounts l -> (0 <= total l)%Z.
Proof.
  unfold positive_amounts. induction 1 as [|[k z] l Hz _ IH]; simpl in *; lia.
Qed.

Lemma greedy_total fuel ds cs :
  positive_amounts ds -> positive_amounts cs ->
  total ds = total cs ->
  (List.length ds + List.length cs <= fuel)%nat ->
  total (greedy fuel ds cs) = total cs.
Proof.
  revert ds cs. induction fuel as [|fuel IH]; intros ds cs Pd Pc T L.
  - destruct ds, cs; simpl in L; try lia. reflexivity.
  - destruct ds as [|[d x] ds].
    + simpl in T. symmetry in T. rewrite (positive_total_nil Pc T). reflexivity.
    + destruct cs as [|[c y] cs].
      * simpl in T. pose proof (positive_total_nil Pd) as N.
        simpl in N. specialize (N T). discriminate.
      * unfold positive_amounts in Pd, Pc.
        inversion Pd as [|? ? Hx Pd']; inversion Pc as [|? ? Hy Pc']; subst.
        simpl in Hx, Hy, T, L. cbn [greedy total fold_right snd].
        change (fold_right (fun kz acc => (snd kz + acc)%Z) 0%Z
                  (greedy fuel
                     (if (x <=? y)%Z then ds else (d, (x - y)%Z) :: ds)
                     (if (y <=? x)%Z then cs else (c, (y - x)%Z) :: cs)))
          with (total (greedy fuel
                     (if (x <=? y)%Z then ds else (d, (x - y)%Z) :: ds)
                     (if (y <=? x)%Z then cs else (c, (y - x)%Z) :: cs))).
        change (fold_right (fun kz acc => (snd kz + acc)%Z) 0%Z cs)
          with (total cs).
        rewrite IH.
        -- destruct (Z.leb_spec y x); simpl; fold (total cs); lia.
        -- destruct (Z.leb_spec x y); [exact Pd'|].
           constructor; [simpl; lia | exact Pd'].
        -- destruct (Z.leb_spec y x); [exact Pc'|].
           constructor; [simpl; lia | exact Pc'].
        -- fold (total ds) in T. fold (total cs) in T.
           destruct (Z.leb_spec x y), (Z.leb_spec y x); simpl;
             fold (total ds); fold (total cs); lia.
        -- destruct (Z.leb_spec x y), (Z.leb_spec y x); simpl; lia.
Qed.

Lemma py_sum_of_cents {K} (l : list (K * Z)) :
  py_sum (dict_values (of_cents l)) == cents (total l).
Proof.
  induction l as [|[k z] l IH]; [reflexivity|].
  cbn [of_cents map dict_values fst snd total fold_right].
  rewrite py_sum_cons. unfold dict_values, of_cents in IH. rewrite IH.
  apply cents_plus.
Qed.

Lemma positive_net_of_cents (net : dict string Z) :
  py_sum (filter (Qltb 0) (dict_values (of_cents net))) ==
  cents (total (creditor_cents net)).
Proof.
  unfold creditor_cents.
  induction net as [|[u z] net IH]; [reflexivity|].
  cbn [of_cents map dict_values fst snd filter].
  rewrite cents_gt_0. unfold dict_values, of_cents in IH.
  destruct (0 <? z)%Z; [|exact IH].
  cbn [total fold_right snd]. rewrite py_sum_cons, IH. apply cents_plus.
Qed.




(** ** Sorting a sorted list *)

Section Ascending.
Context {A : Type} (leb : A -> A -> bool).
Hypothesis leb_total : forall x y, leb x y = false -> leb y x = true.

Lemma insert_sorted_ascending x l :
  ascending leb l -> ascending leb (insert_sorted leb x l).
Proof.
  induction l as [|y l IH]; intros Al; [exact I|].
  cbn [insert_sorted]. destruct (leb x y) eqn:E.
  - split; assumption.
  - destruct l as [|z l].
    + simpl. split; [apply leb_total; exact E | exact I].
    + destruct Al as [Hyz Al]. specialize (IH Al).
      cbn [insert_sorted] in IH |- *. destruct (leb x z).
      * split; [apply leb_total; exact E | exact IH].
      * split; [exact Hyz | exact IH].
Qed.

Lemma stable_sort_ascending l : ascending leb (stable_sort leb l).
Proof.
  induction l as [|x l IH]; [exact I|].
  apply insert_sorted_ascending. exact IH.
Qed.

Lemma stable_sort_id l : ascending leb l -> stable_sort leb l = l.
Proof.
  induction l as [|x l IH]; intros Al; [reflexivity|].
  cbn [stable_sort fold_right]. fold (stable_sort leb l).
  destruct l as [|y l]; [reflexivity|].
  destruct Al as [Hxy Al]. rewrite (IH Al).
  cbn [insert_sorted]. rewrite Hxy. reflexivity.
Qed.
End Ascending.

Lemma by_cents_total x y : by_cents x y = false -> by_cents y x = true.
Proof.
  unfold by_cents. intros L. apply Z.leb_gt in L. apply Z.leb_le. lia.
Qed.

(** ** The net balances of what the collapse leaves *)

Section NetOfTransfers.
Local Open Scope Z_scope.

Lemma dict_set_set (net : dict string Z) u v w :
  dict_set (dict_set net u v) u w = dict_set net u w.
Proof.
  induction net as [|[u0 z0] net IH]; simpl.
  - rewrite String.eqb_refl. reflexivity.
  - destruct (String.eqb u0 u) eqn:E; simpl; rewrite E; [reflexivity|].
    rewrite IH. reflexivity.
Qed.

Lemma bump_bump net u a b : bump (bump net (u, a)) (u, b) = bump net (u, a + b).
Proof.
  unfold bump, dict_get_default; cbn [fst snd].
  rewrite dict_get_set_same, dict_set_set. f_equal. lia.
Qed.

Lemma bump_get_other net u m u' :
  u <> u' -> dict_get (bump net (u, m)) u' = dict_get net u'.
Proof. intros N. unfold bump. apply dict_get_set_other. exact N. Qed.

Lemma bump_get_same net u m :
  dict_get (bump net (u, m)) u = Some (dict_get_default net u 0 + m).
Proof. unfold bump. apply dict_get_set_same. Qed.

Section Filter.
Variable p : Z -> bool.

Lemma filter_get (net : dict string Z) u :
  (forall z, dict_get net u = Some z -> p z = true) ->
  dict_get (filter (fun uz => p (snd uz)) net) u = dict_get net u.
Proof.
  induction net as [|[u0 z0] net IH]; intros Hp; [reflexivity|].
  simpl in Hp |- *. destruct (String.eqb u0 u) eqn:E.
  - rewrite (Hp z0 eq_refl). simpl. rewrite E. reflexivity.
  - destruct (p z0); simpl; [rewrite E|]; apply IH; exact Hp.
Qed.

Lemma filter_set_in (net : dict string Z) u v :
  p v = true ->
  (forall z, dict_get net u = Some z -> p z = true) ->
  filter (fun uz => p (snd uz)) (dict_set net u v) =
  dict_set (filter (fun uz => p (snd uz)) net) u v.
Proof.
  intros Hv. induction net as [|[u0 z0] net IH]; intros Hp.
  - simpl. rewrite Hv. reflexivity.
  - simpl in Hp |- *. destruct (String.eqb u0 u) eqn:E.
    + rewrite (Hp z0 eq_refl). simpl. rewrite Hv, E. reflexivity.
    + simpl. destruct (p z0); simpl; [rewrite E|]; rewrite IH; auto.
Qed.

Lemma filter_set_out (net : dict string Z) u v :
  p v = false ->
  (forall z, dict_get net u = Some z -> p z = false) ->
  filter (fun uz => p (snd uz)) (dict_set net u v) =
  filter (fun uz => p (snd uz)) net.
Proof.
  intros Hv. induction net as [|[u0 z0] net IH]; intros Hp.
  - simpl. rewrite Hv. reflexivity.
  - simpl in Hp |- *. destruct (String.eqb u0 u) eqn:E.
    + rewrite (Hp z0 eq_refl). simpl. rewrite Hv. reflexivity.
    + simpl. destruct (p z0); rewrite IH; auto.
Qed.

Lemma filter_bump_in net u m :
  p (dict_get_default net u 0 + m) = true ->
  (forall z, dict_get net u = Some z -> p z = true) ->
  filter (fun uz => p (snd uz)) (bump net (u, m)) =
  bump (filter (fun uz => p (snd uz)) net) (u, m).
Proof.
  intros Hv Hp. unfold bump; cbn [fst snd].
  rewrite filter_set_in by assumption.
  unfold dict_get_default. rewrite (filter_get _ _ Hp). reflexivity.
Qed.

Lemma filter_bump_out net u m :
  p (dict_get_default net u 0 + m) = false ->
  (forall z, dict_get net u = Some z -> p z = false) ->
  filter (fun uz => p (snd uz)) (bump net (u, m)) =
  filter (fun uz => p (snd uz)) net.
Proof.
  intros Hv Hp. unfold bump; cbn [fst snd].
  apply filter_set_out; assumption.
Qed.
End Filter.
End NetOfTransfers.

Section Views.
Local Open Scope Z_scope.
Variables debtor_names creditor_names : list string.
Hypothesis disjoint :
  forall u, In u debtor_names -> In u creditor_names -> False.

Local Abbreviation signs_ok := (signs_ok debtor_names creditor_names).
Local Abbreviation transfer_ok := (transfer_ok debtor_names creditor_names).

Lemma signs_default net u :
  signs_ok net ->
  (In u debtor_names -> dict_get_default net u 0 <= 0) /\
  (In u creditor_names -> 0 <= dict_get_default net u 0).
Proof.
  intros S. unfold dict_get_default.
  destruct (dict_get net u) as [z|] eqn:G; [|lia].
  destruct (S _ _ G) as [Sd Sc]. split; intros I; [apply Sd in I | apply Sc in I]; lia.
Qed.

Lemma net_step_signs net e :
  transfer_ok e -> signs_ok net -> signs_ok (net_step_cents net e).
Proof.
  destruct e as [[d c] m]. intros [Id [Ic Hm]] S. simpl in Id, Ic, Hm.
  assert (Ndc : d <> c) by (intros ->; eauto).
  unfold net_step_cents; cbn [fst snd].
  pose proof (signs_default d S) as [Dd _].
  intros u z G.
  destruct (string_dec c u) as [<-|Nc].
  - rewrite bump_get_same in G. inversion G; subst z.
    unfold dict_get_default. rewrite bump_get_other by exact Ndc.
    fold (dict_get_default net c 0).
    pose proof (signs_default c S) as [_ Cc].
    split; [intros I; exfalso; eauto | intros _; specialize (Cc Ic); lia].
  - rewrite bump_get_other in G by exact Nc.
    destruct (string_dec d u) as [<-|Nd].
    + rewrite bump_get_same in G. inversion G; subst z.
      split; [intros _; specialize (Dd Id); lia | intros I; exfalso; eauto].
    + rewrite bump_get_other in G by exact Nd. exact (S _ _ G).
Qed.

Lemma negatives_net_step net e :
  transfer_ok e -> signs_ok net ->
  filter (fun uz => snd uz <? 0) (net_step_cents net e) =
  bump (filter (fun uz => snd uz <? 0) net) (fst (fst e), - snd e).
Proof.
  destruct e as [[d c] m]. intros [Id [Ic Hm]] S. simpl in Id, Ic, Hm.
  assert (Ndc : d <> c) by (intros ->; eauto).
  unfold net_step_cents; cbn [fst snd].
  pose proof (signs_default d S) as [Dd _]. specialize (Dd Id).
  pose proof (signs_default c S) as [_ Cc]. specialize (Cc Ic).
  rewrite (filter_bump_out (fun z => z <? 0)).
  - apply (filter_bump_in (fun z => z <? 0)).
    + apply Z.ltb_lt. lia.
    + intros z G. apply Z.ltb_lt. apply (S _ _ G). exact Id.
  - apply Z.ltb_ge. unfold dict_get_default.
    rewrite bump_get_other by exact Ndc.
    fold (dict_get_default net c 0). lia.
  - intros z G. rewrite bump_get_other in G by exact Ndc.
    apply Z.ltb_ge. destruct (S _ _ G) as [_ Sc]. specialize (Sc Ic). lia.
Qed.

Lemma positives_net_step net e :
  transfer_ok e -> signs_ok net ->
  filter (fun uz => 0 <? snd uz) (net_step_cents net e) =
  bump (filter (fun uz => 0 <? snd uz) net) (snd (fst e), snd e).
Proof.
  destruct e as [[d c] m]. intros [Id [Ic Hm]] S. simpl in Id, Ic, Hm.
  assert (Ndc : d <> c) by (intros ->; eauto).
  unfold net_step_cents; cbn [fst snd].
  pose proof (signs_default d S) as [Dd _]. specialize (Dd Id).
  pose proof (signs_default c S) as [_ Cc]. specialize (Cc Ic).
  assert (Out : filter (fun uz => 0 <? snd uz) (bump net (d, - m)) =
                filter (fun uz => 0 <? snd uz) net).
  { apply (filter_bump_out (fun z => 0 <? z)).
    - apply Z.ltb_ge. lia.
    - intros z G. apply Z.ltb_ge. destruct (S _ _ G) as [Sd _].
      specialize (Sd Id). lia. }
  rewrite (filter_bump_in (fun z => 0 <? z)).
  - rewrite Out. reflexivity.
  - apply Z.ltb_lt. unfold dict_get_default.
    rewrite bump_get_other by exact Ndc.
    fold (dict_get_default net c 0). lia.
  - intros z G. rewrite bump_get_other in G by exact Ndc.
    apply Z.ltb_lt. apply (S _ _ G). exact Ic.
Qed.

Lemma views_fold entries net :
  Forall transfer_ok entries -> signs_ok net ->
  filter (fun uz => snd uz <? 0) (fold_left net_step_cents entries net) =
    fold_left bump (map (fun e => (fst (fst e), - snd e)) entries)
      (filter (fun uz => snd uz <? 0) net) /\
  filter (fun uz => 0 <? snd uz) (fold_left net_step_cents entries net) =
    fold_left bump (map (fun e => (snd (fst e), snd e)) entries)
      (filter (fun uz => 0 <? snd uz) net).
Proof.
  intros F. revert net. induction F as [|e entries He _ IH]; intros net S.
  - split; reflexivity.
  - cbn [fold_left map].
    destruct (IH _ (net_step_signs He S)) as [-> ->].
    rewrite (negatives_net_step He S), (positives_net_step He S).
    split; reflexivity.
Qed.
End Views.

Section GreedySums.
Local Open Scope Z_scope.

Lemma greedy_swap fuel ds cs :
  map swap_entry (greedy fuel ds cs) = greedy fuel cs ds.
Proof.
  revert ds cs. induction fuel as [|fuel IH]; intros ds cs; [reflexivity|].
  destruct ds as [|[d x] ds]; [destruct cs as [|[c y] cs]; reflexivity|].
  destruct cs as [|[c y] cs]; [reflexivity|].
  cbn [greedy map]. rewrite IH. unfold swap_entry; cbn [fst snd].
  rewrite Z.min_comm. reflexivity.
Qed.

(** Summed up per debtor, the transfers give every debtor what it owed. *)
Lemma greedy_debits (g : Z -> Z) fuel ds cs net :
  (forall a b, g (a + b) = g a + g b) ->
  positive_amounts ds -> positive_amounts cs ->
  total ds = total cs ->
  (List.length ds + List.length cs <= fuel)%nat ->
  fold_left bump (map (fun e => (fst (fst e), g (snd e))) (greedy fuel ds cs)) net =
  fold_left bump (map (fun dz => (fst dz, g (snd dz))) ds) net.
Proof.
  intros Hg. revert ds cs net.
  induction fuel as [|fuel IH]; intros ds cs net Pd Pc T L.
  - destruct ds, cs; simpl in L; try lia. reflexivity.
  - destruct ds as [|[d x] ds]; [reflexivity|].
    destruct cs as [|[c y] cs].
    + simpl in T. pose proof (positive_total_nil Pd) as N.
      simpl in N. specialize (N T). discriminate.
    + unfold positive_amounts in Pd, Pc.
      inversion Pd as [|? ? Hx Pd']; inversion Pc as [|? ? Hy Pc']; subst.
      simpl in Hx, Hy, T, L. fold (total ds) in T. fold (total cs) in T.
      cbn [greedy map fold_left fst snd].
      destruct (Z.leb_spec x y) as [Lxy|Lxy].
      * rewrite Z.min_l by exact Lxy.
        apply IH; [exact Pd' | | |].
        -- destruct (Z.leb_spec y x); [exact Pc'|].
           constructor; [simpl; lia | exact Pc'].
        -- destruct (Z.leb_spec y x); simpl; fold (total cs); lia.
        -- destruct (Z.leb_spec y x); simpl; lia.
      * rewrite Z.min_r by lia.
        destruct (Z.leb_spec y x) as [_|?]; [|lia].
        rewrite IH.
        -- cbn [map fold_left fst snd]. rewrite bump_bump.
           rewrite <- Hg. replace (y + (x - y)) with x by lia. reflexivity.
        -- constructor; [simpl; lia | exact Pd'].
        -- exact Pc'.
        -- simpl. fold (total ds). lia.
        -- simpl. lia.
Qed.

Lemma bump_fold_fresh (l net : dict string Z) :
  NoDup (dict_keys l) ->
  (forall u, In u (dict_keys l) -> dict_get net u = None) ->
  fold_left bump l net = net ++ l.
Proof.
  revert net. induction l as [|[u z] l IH]; intros net ND Fresh.
  - simpl. rewrite app_nil_r. reflexivity.
  - simpl in ND. inversion ND as [|? ? NI ND']; subst.
    cbn [fold_left]. unfold bump at 2; cbn [fst snd].
    unfold dict_get_default.
    rewrite (Fresh u) by (left; reflexivity).
    rewrite dict_set_fresh by (apply Fresh; left; reflexivity).
    rewrite IH.
    + rewrite <- app_assoc. reflexivity.
    + exact ND'.
    + intros u' I. rewrite <- dict_set_fresh by (apply Fresh; left; reflexivity).
      rewrite dict_get_set_other by (intros ->; contradiction).
      apply Fresh. right; exact I.
Qed.

Lemma transfers_net fuel ds cs :
  positive_amounts ds -> positive_amounts cs ->
  NoDup (dict_keys ds) -> NoDup (dict_keys cs) ->
  (forall u, In u (dict_keys ds) -> In u (dict_keys cs) -> False) ->
  total ds = total cs ->
  (List.length ds + List.length cs <= fuel)%nat ->
  let net := fold_left net_step_cents (greedy fuel ds cs) [] in
  debtor_cents net = ds /\ creditor_cents net = cs.
Proof.
  intros Pd Pc Nd Nc Disj T L net.
  assert (F : Forall (transfer_ok (dict_keys ds) (dict_keys cs))
                     (greedy fuel ds cs)).
  { pose proof (greedy_positive fuel Pd Pc) as P.
    unfold positive_amounts in P. rewrite Forall_forall in P |- *.
    intros e I. unfold transfer_ok.
    assert (Ik : In (fst e) (dict_keys (greedy fuel ds cs)))
      by (apply in_map; exact I).
    destruct (greedy_keys _ _ _ _ Ik) as [Kd Kc].
    repeat split; auto. }
  assert (S0 : signs_ok (dict_keys ds) (dict_keys cs) []).
  { intros u z G. discriminate G. }
  destruct (views_fold Disj F S0) as [Vd Vc]. fold net in Vd, Vc.
  split.
  - unfold debtor_cents. rewrite Vd.
    rewrite (greedy_debits Z.opp) by (auto; intros; lia).
    rewrite bump_fold_fresh.
    + simpl. rewrite map_map. cbn [fst snd].
      rewrite <- (map_id ds) at 2. apply map_ext.
      intros [u z]; simpl. f_equal. lia.
    + unfold dict_keys. rewrite map_map. exact Nd.
    + reflexivity.
  - unfold creditor_cents. rewrite Vc.
    replace (map (fun e => (snd (fst e), snd e)) (greedy fuel ds cs))
      with (map (fun e => (fst (fst e), (fun z => z) (snd e)))
                (greedy fuel cs ds)).
    + rewrite (greedy_debits (fun z => z)) by (auto; lia).
      rewrite bump_fold_fresh.
      * simpl. rewrite <- (map_id cs) at 2. apply map_ext.
        intros [u z]; reflexivity.
      * unfold dict_keys. rewrite map_map. exact Nc.
      * reflexivity.
    + rewrite <- greedy_swap, map_map. reflexivity.
Qed.
End GreedySums.

(** ** Idempotence *)

(** Collapsing what a collapse of a ledger of whole cents has left finds
    the same debtors and creditors, in the same order. *)
Lemma transfers_again debts :
  cents_ledger debts = true ->
  transfers (of_cents (transfers debts)) = transfers debts.
Proof.
  intros C.
  destruct (sorted_debtors_ok debts) as [Pd Nd].
  destruct (sorted_creditors_ok debts) as [Pc Nc].
  destruct (@transfers_net
              (List.length (sorted_debtors debts) +
               List.length (sorted_creditors debts))
              (sorted_debtors debts) (sorted_creditors debts))
    as [Ed Ec]; auto using sorted_balanced.
  { intros u. apply debtor_not_creditor. }
  fold (transfers debts) in Ed, Ec.
  assert (N : net_cents (of_cents (transfers debts)) =
              fold_left net_step_cents (transfers debts) []).
  { rewrite net_cents_fold by apply cents_ledger_of_cents.
    rewrite ledger_cents_of_cents. reflexivity. }
  assert (Sd : sorted_debtors (of_cents (transfers debts)) = sorted_debtors debts).
  { unfold sorted_debtors at 1. rewrite N, Ed.
    apply (stable_sort_id by_cents).
    unfold sorted_debtors. apply stable_sort_ascending, by_cents_total. }
  assert (Sc : sorted_creditors (of_cents (transfers debts)) =
               sorted_creditors debts).
  { unfold sorted_creditors at 1. rewrite N, Ec.
    apply (stable_sort_id by_cents).
    unfold sorted_creditors. apply stable_sort_ascending, by_cents_total. }
  unfold transfers at 1. rewrite Sd, Sc. reflexivity.
Qed.




(* ================================================================== *)
(** * Further properties of the split strategies *)

(** ** Dictionaries built by comprehension *)

Section DictOfFacts.
Context {A K V : Type} `{KeyOk K} (key : A -> K) (val : A -> V).

Lemma dict_of_acc_get xs acc k v :
  dict_get (fold_left (fun d x => dict_set d (key x) (val x)) xs acc) k = Some v ->
  (exists x, In x xs /\ key x = k /\ val x = v) \/ dict_get acc k = Some v.
Proof.
  revert acc. induction xs as [|x xs IH]; intros acc G; simpl in G.
  - right; exact G.
  - apply IH in G. destruct G as [[y [I [Ek Ev]]]|G].
    + left. exists y. simpl; auto.
    + destruct (key_eq_dec (key x) k) as [E|N].
      * subst k. rewrite dict_get_set_same in G. inversion G; subst.
        left. exists x. simpl; auto.
      * rewrite dict_get_set_other in G by exact N. right; exact G.
Qed.

Lemma dict_of_get xs k v :
  dict_get (dict_of key val xs) k = Some v ->
  exists x, In x xs /\ key x = k /\ val x = v.
Proof.
  intros G. unfold dict_of in G. apply dict_of_acc_get in G.
  destruct G as [G|G]; [exact G | discriminate G].
Qed.

Lemma dict_of_mem xs k :
  In k (dict_keys (dict_of key val xs)) <-> In k (map key xs).
Proof.
  split.
  - intros I. destruct (dict_get (dict_of key val xs) k) as [v|] eqn:G.
    + apply dict_of_get in G. destruct G as [x [Ix [<- _]]].
      apply in_map; exact Ix.
    + apply dict_get_None in G. contradiction.
  - intros I. unfold dict_of. apply dict_of_acc_mem. left; exact I.
Qed.
End DictOfFacts.

Lemma email_to_user_get participants e u :
  dict_get (email_to_user_of participants) e = Some u ->
  In u participants /\ User.email u = e.
Proof.
  intros G. apply dict_of_get in G. destruct G as [x [I [E <-]]]. auto.
Qed.

Lemma email_to_user_keys participants e :
  In e (dict_keys (email_to_user_of participants)) <->
  In e (map User.email participants).
Proof. apply dict_of_mem. Qed.

Lemma subset_In {K} `{KeyOk K} (l1 l2 : list K) :
  subset l1 l2 = true <-> (forall x, In x l1 -> In x l2).
Proof.
  unfold subset. rewrite forallb_forall. split.
  - intros S x I. apply mem_In, S, I.
  - intros S x I. apply mem_In, S, I.
Qed.

Lemma set_eqb_In {K} `{KeyOk K} (l1 l2 : list K) :
  set_eqb l1 l2 = true <-> (forall x, In x l1 <-> In x l2).
Proof.
  unfold set_eqb. rewrite andb_true_iff, !subset_In. split.
  - intros [S1 S2] x; split; auto.
  - intros E; split; intros x; apply E.
Qed.

(** The comprehension [{email_to_user[e]: val(v) for e, v in d.items()}]:
    it raises only on a key it cannot look up, and with keys that are
    looked up to different users it keeps every item. *)
Section Comprehension.
Context {V V' : Type} (val : string -> V -> V').
Variable email_to_user : dict string User.t.

Lemma comprehension_ok (items : dict string V) acc :
  (forall e, In e (dict_keys items) -> dict_get email_to_user e <> None) ->
  exists d,
    dict_comprehension (fun e _ => dict_getitem email_to_user e) val items acc
    = Ok d.
Proof.
  revert acc. induction items as [|[e v] items IH]; intros acc Hk.
  - exists acc; reflexivity.
  - cbn [dict_comprehension]. unfold dict_getitem at 1.
    destruct (dict_get email_to_user e) as [u|] eqn:G.
    + cbn [bind]. apply IH. intros e' I. apply Hk. right; exact I.
    + exfalso. apply (Hk e); [left; reflexivity | exact G].
Qed.

Lemma comprehension_map (items : dict string V) acc d :
  (forall e u, dict_get email_to_user e = Some u -> User.email u = e) ->
  NoDup (dict_keys items) ->
  (forall u, In u (dict_keys acc) -> ~ In (User.email u) (dict_keys items)) ->
  dict_comprehension (fun e _ => dict_getitem email_to_user e) val items acc
    = Ok d ->
  exists users,
    d = acc ++ combine users (map (fun ev => val (fst ev) (snd ev)) items) /\
    List.length users = List.length items /\
    map User.email users = dict_keys items.
Proof.
  intros Hem. revert acc d.
  induction items as [|[e v] items IH]; intros acc d ND Fresh C.
  - simpl in C. inversion C; subst. exists []. simpl.
    rewrite app_nil_r. auto.
  - cbn [dict_comprehension] in C. unfold dict_getitem at 1 in C.
    destruct (dict_get email_to_user e) as [u|] eqn:G; [|discriminate C].
    cbn [bind] in C. simpl in ND. inversion ND as [|? ? NI ND']; subst.
    pose proof (Hem _ _ G) as Eu.
    assert (Gu : dict_get acc u = None).
    { apply dict_get_None. intros I. apply (Fresh _ I). left. auto. }
    rewrite dict_set_fresh in C by exact Gu.
    apply IH in C; [|exact ND'|].
    + destruct C as [users [-> [L M]]].
      exists (u :: users). cbn [combine map List.length fst snd dict_keys].
      rewrite <- app_assoc. simpl. rewrite L, Eu.
      unfold dict_keys in M. rewrite M. auto.
    + intros u' I. unfold dict_keys in I. rewrite map_app, in_app_iff in I.
      destruct I as [I|[<-|[]]].
      * intros I'. apply (Fresh _ I). right; exact I'.
      * simpl. rewrite Eu. exact NI.
Qed.
End Comprehension.

(** ** The shares of the percentage and ratio strategies *)

Lemma absorb_remainder_ok {K} `{KeyOk K} (shares : dict K Q) first rest
    remainder e s :
  dict_get shares first = Some s ->
  absorb_remainder shares (first :: rest) remainder e =
  Ok (if Qeq_bool remainder 0 then shares
      else dict_set shares first (round2 (s + remainder))).
Proof.
  intros G. unfold absorb_remainder, dict_getitem. rewrite G.
  destruct (Qeq_bool remainder 0); reflexivity.
Qed.

Section Accumulate.
Context {W : Type} (amount : Q) (fraction : W -> Q).

Definition share_of (item : string * W) : string * Q :=
  (fst item, round2 (py_mul amount (fraction (snd item)))).

Lemma accumulate_from_keys (items : dict string W) st k :
  In k (dict_keys (fst (fold_left
    (fun st item =>
       let share := round2 (py_mul amount (fraction (snd item))) in
       (dict_set (fst st) (fst item) share, snd st + share))
    items st))) <->
  In k (dict_keys items) \/ In k (dict_keys (fst st)).
Proof.
  revert st. induction items as [|[e w] items IH]; intros st; simpl.
  - tauto.
  - rewrite IH. simpl. rewrite dict_keys_set_In. intuition.
Qed.

Lemma accumulate_keys (items : dict string W) k :
  In k (dict_keys (fst (accumulate_shares amount fraction items))) <->
  In k (dict_keys items).
Proof.
  unfold accumulate_shares. rewrite accumulate_from_keys. simpl. tauto.
Qed.

Lemma accumulate_from_NoDup (items : dict string W) sh r :
  NoDup (dict_keys items) ->
  (forall k, In k (dict_keys items) -> dict_get sh k = None) ->
  fold_left
    (fun st item =>
       let share := round2 (py_mul amount (fraction (snd item))) in
       (dict_set (fst st) (fst item) share, snd st + share))
    items (sh, r) =
  (sh ++ map share_of items,
   fold_left Qplus (dict_values (map share_of items)) r).
Proof.
  revert sh r. induction items as [|[e w] items IH]; intros sh r ND Fresh.
  - simpl. rewrite app_nil_r. reflexivity.
  - simpl in ND. inversion ND as [|? ? NI ND']; subst.
    cbn [fold_left fst snd].
    rewrite dict_set_fresh by (apply Fresh; left; reflexivity).
    rewrite IH.
    + rewrite <- app_assoc. reflexivity.
    + exact ND'.
    + intros k I.
      rewrite <- dict_set_fresh by (apply Fresh; left; reflexivity).
      rewrite dict_get_set_other by (intros ->; contradiction).
      apply Fresh. right; exact I.
Qed.

Lemma accumulate_NoDup (items : dict string W) :
  NoDup (dict_keys items) ->
  accumulate_shares amount fraction items =
  (map share_of items, py_sum (dict_values (map share_of items))).
Proof.
  intros ND. unfold accumulate_shares.
  rewrite accumulate_from_NoDup by (auto; reflexivity). reflexivity.
Qed.
End Accumulate.

Lemma weighted_shares_ok {W} amount (fraction : W -> Q) items email_to_user :
  items <> [] ->
  (forall e, In e (dict_keys items) -> dict_get email_to_user e <> None) ->
  exists d, weighted_shares amount fraction items email_to_user = Ok d.
Proof.
  intros NE Hk. unfold weighted_shares.
  pose proof (accumulate_keys amount fraction items) as Keys.
  destruct (accumulate_shares amount fraction items) as [shares running].
  simpl in Keys.
  destruct items as [|[first w] rest]; [contradiction|].
  cbn [dict_keys map fst].
  destruct (dict_get shares first) as [s|] eqn:G.
  - rewrite absorb_remainder_ok with (s := s) by exact G. cbn [bind].
    apply comprehension_ok. intros e I. apply Hk. apply Keys.
    destruct (Qeq_bool _ 0); [exact I|].
    apply dict_keys_set_In in I. destruct I as [->|I]; [|exact I].
    apply Keys. left; reflexivity.
  - exfalso. apply dict_get_None in G. apply G, Keys. left; reflexivity.
Qed.

(** ** Only validation errors *)

Lemma equal_split_raises amount participants details x :
  EqualSplit.calculate_shares amount participants details = Raise x ->
  x = ValueError No_participants.
Proof.
  unfold EqualSplit.calculate_shares.
  destruct participants as [|p rest]; [intros [= <-]; reflexivity|].
  cbn [List.length Nat.eqb].
  set (base := round2 _). set (shares := dict_of _ _ _).
  assert (I : In p (dict_keys shares)).
  { unfold shares. apply dict_of_mem. rewrite map_id. left; reflexivity. }
  destruct (dict_get shares p) as [s|] eqn:G.
  - rewrite absorb_remainder_ok with (s := s) by exact G. discriminate.
  - apply dict_get_None in G. contradiction.
Qed.

Lemma unequal_split_raises amount participants details x :
  UnequalSplit.calculate_shares amount participants details = Raise x ->
  exists m, x = ValueError m.
Proof.
  unfold UnequalSplit.calculate_shares.
  destruct details as [[[amounts|] ? ?]|]; try (intros [= <-]; eauto; fail).
  destruct (set_eqb _ _) eqn:S; cbn [negb]; [|intros [= <-]; eauto].
  destruct (Qeq_bool _ _); cbn [negb]; [|intros [= <-]; eauto].
  intros R. exfalso.
  destruct (@comprehension_ok Q Q (fun _ v => round2 v)
              (email_to_user_of participants) amounts []) as [d Hd].
  - intros e I. apply (proj1 (set_eqb_In _ _) S) in I.
    intros G. apply dict_get_None in G. contradiction.
  - rewrite Hd in R. discriminate R.
Qed.

Lemma percent_split_raises amount participants details x :
  PercentSplit.calculate_shares amount participants details = Raise x ->
  exists m, x = ValueError m.
Proof.
  unfold PercentSplit.calculate_shares.
  destruct details as [[? [percents|] ?]|]; try (intros [= <-]; eauto; fail).
  destruct (set_eqb _ _) eqn:S; cbn [negb]; [|intros [= <-]; eauto].
  destruct (Qltb _ _) eqn:T; [intros [= <-]; eauto|].
  intros R. exfalso.
  destruct (@weighted_shares_ok Q amount (fun pct => py_truediv pct 100) percents
              (email_to_user_of participants)) as [d Hd].
  - intros ->. vm_compute in T. discriminate T.
  - intros e I. apply (proj1 (set_eqb_In _ _) S) in I.
    intros G. apply dict_get_None in G. contradiction.
  - unfold weighted_shares in Hd. rewrite Hd in R. discriminate R.
Qed.

Lemma shares_split_raises amount participants details x :
  SharesSplit.calculate_shares amount participants details = Raise x ->
  exists m, x = ValueError m.
Proof.
  unfold SharesSplit.calculate_shares.
  destruct details as [[? ? [shares_map|]]|]; try (intros [= <-]; eauto; fail).
  destruct (set_eqb _ _) eqn:S; cbn [negb]; [|intros [= <-]; eauto].
  destruct (Z.leb_spec (fold_left Z.add (dict_values shares_map) 0%Z) 0)
    as [T|T]; [intros [= <-]; eauto|].
  intros R. exfalso.
  destruct (@weighted_shares_ok Z amount
              (fun s => int_truediv s
                 (fold_left Z.add (dict_values shares_map) 0%Z))
              shares_map (email_to_user_of participants)) as [d Hd].
  - intros ->. simpl in T. lia.
  - intros e I. apply (proj1 (set_eqb_In _ _) S) in I.
    intros G. apply dict_get_None in G. contradiction.
  - unfold weighted_shares in Hd. rewrite Hd in R. discriminate R.
Qed.



(** ** Reconciliation of the percentage, ratio and explicit strategies *)

Lemma py_sum_rounded (l : list Q) :
  Forall (fun q => exists k, q = cents k) l -> exists r, py_sum l == cents r.
Proof.
  induction 1 as [|q l [k ->] _ [r IH]].
  - exists 0%Z. reflexivity.
  - exists (k + r)%Z. rewrite py_sum_cons, IH. apply cents_plus.
Qed.

Lemma dict_values_combine {K V} (ks : list K) (vs : list V) :
  List.length ks = List.length vs -> dict_values (combine ks vs) = vs.
Proof.
  revert vs. induction ks as [|k ks IH]; intros [|v vs] L; simpl in *;
    try discriminate; [reflexivity|].
  rewrite IH by lia. reflexivity.
Qed.

Lemma share_of_keys {W} amount (fraction : W -> Q) (items : dict string W) :
  dict_keys (map (share_of amount fraction) items) = dict_keys items.
Proof. unfold dict_keys. rewrite map_map. reflexivity. Qed.

Lemma weighted_shares_sum {W} amount (fraction : W -> Q)
    (items : dict string W) email_to_user a d :
  amount == cents a ->
  NoDup (dict_keys items) ->
  (forall e u, dict_get email_to_user e = Some u -> User.email u = e) ->
  weighted_shares amount fraction items email_to_user = Ok d ->
  py_sum (dict_values d) == amount /\
  map User.email (dict_keys d) = dict_keys items.
Proof.
  intros Ha ND Hem. unfold weighted_shares.
  rewrite accumulate_NoDup by exact ND.
  set (shares := map (share_of amount fraction) items).
  assert (Rd : Forall (fun q => exists k, q = cents k) (dict_values shares)).
  { unfold shares, dict_values. rewrite map_map. apply Forall_forall.
    intros q I. apply in_map_iff in I. destruct I as [item [<- _]].
    apply round2_is_cents. }
  destruct (py_sum_rounded Rd) as [r Hr].
  assert (Hrem : round2 (amount - round2 (py_sum (dict_values shares))) =
                 cents (a - r)).
  { apply round2_value. rewrite (round2_value Hr), Ha. apply cents_minus. }
  rewrite Hrem.
  assert (Tail : forall shares',
    dict_keys shares' = dict_keys items ->
    py_sum (dict_values shares') == cents a ->
    dict_comprehension (fun e _ => dict_getitem email_to_user e)
      (fun _ v => v) shares' [] = Ok d ->
    py_sum (dict_values d) == amount /\
    map User.email (dict_keys d) = dict_keys items).
  { intros shares' Ks Sum C.
    apply comprehension_map in C; [| exact Hem | rewrite Ks; exact ND
                                   | intros u []].
    destruct C as [users [-> [L M]]]. simpl.
    assert (Lc : List.length users =
                 List.length (map (fun ev : string * Q => snd ev) shares'))
      by (rewrite length_map; exact L).
    split.
    - rewrite (dict_values_combine _ _ Lc).
      fold (dict_values shares'). rewrite Sum, Ha. reflexivity.
    - unfold dict_keys at 1.
      assert (Ek : map fst (combine users
                     (map (fun ev : string * Q => snd ev) shares')) = users).
      { clear -Lc. revert Lc.
        generalize (map (fun ev : string * Q => snd ev) shares') as vs.
        induction users as [|u users IH]; intros [|v vs] Lc; simpl in *;
          try discriminate; [reflexivity|].
        rewrite IH by lia. reflexivity. }
      rewrite Ek, M. exact Ks. }
  destruct items as [|[first w] rest].
  - unfold absorb_remainder. cbn [dict_keys map].
    destruct (Qeq_bool (cents (a - r)) 0) eqn:Z0; cbn [negb bind];
      [|discriminate].
    apply Tail; [reflexivity|].
    apply Qeq_bool_iff in Z0. simpl in Hr.
    assert (a = r) by (unfold Qeq, cents in Z0; simpl in Z0; lia).
    subst r. rewrite <- Hr. reflexivity.
  - cbn [dict_keys map fst].
    assert (G : dict_get shares first =
                Some (round2 (py_mul amount (fraction w)))).
    { unfold shares. simpl. rewrite String.eqb_refl. reflexivity. }
    rewrite absorb_remainder_ok with (s := round2 (py_mul amount (fraction w)))
      by exact G.
    cbn [bind]. apply Tail.
    + destruct (Qeq_bool (cents (a - r)) 0).
      * apply share_of_keys.
      * unfold shares. simpl. rewrite String.eqb_refl. simpl.
        f_equal. apply share_of_keys.
    + destruct (Qeq_bool (cents (a - r)) 0) eqn:Z0.
      * apply Qeq_bool_iff in Z0.
        assert (a = r) by (unfold Qeq, cents in Z0; simpl in Z0; lia).
        subst r. exact Hr.
      * rewrite py_sum_set. unfold dict_get_default. rewrite G, Hr.
        destruct (round2_is_cents (py_mul amount (fraction w))) as [s ->].
        rewrite (round2_value (cents_plus s (a - r))).
        unfold Qeq, cents; simpl. lia.
Qed.

Lemma email_to_user_email participants e u :
  dict_get (email_to_user_of participants) e = Some u -> User.email u = e.
Proof. intros G. apply email_to_user_get in G. tauto. Qed.





Lemma py_sum_round2_cents (l : list Q) :
  forallb is_cents l = true ->
  py_sum (map round2 l) == py_sum l /\ exists r, py_sum l == cents r.
Proof.
  induction l as [|q l IH]; intros C.
  - split; [reflexivity|]. exists 0%Z. reflexivity.
  - simpl in C. apply andb_true_iff in C. destruct C as [Cq C].
    destruct (IH C) as [S [r Hr]].
    apply is_cents_spec in Cq. destruct Cq as [k Hk].
    split.
    + cbn [map]. rewrite !py_sum_cons, S, (round2_value Hk), Hk. reflexivity.
    + exists (k + r)%Z. rewrite py_sum_cons, Hk, Hr. apply cents_plus.
Qed.



(* ================================================================== *)
(** * Further properties of the collapse *)


Lemma sorted_debtor_net debts d :
  In d (dict_keys (sorted_debtors debts)) ->
  exists z, dict_get (net_cents debts) d = Some z /\ (z < 0)%Z.
Proof.
  unfold sorted_debtors. intros I.
  apply (Permutation_in _ (stable_sort_keys _ _)) in I.
  rewrite debtor_cents_keys in I. unfold dict_keys in I.
  apply in_map_iff in I. destruct I as [[u z] [E I]]. simpl in E; subst u.
  apply filter_In in I. destruct I as [I L]. apply Z.ltb_lt in L.
  exists z. split; [|exact L].
  apply In_dict_get; [apply net_balances_cents | exact I].
Qed.

Lemma sorted_creditor_net debts c :
  In c (dict_keys (sorted_creditors debts)) ->
  exists z, dict_get (net_cents debts) c = Some z /\ (0 < z)%Z.
Proof.
  unfold sorted_creditors. intros I.
  apply (Permutation_in _ (stable_sort_keys _ _)) in I.
  unfold creditor_cents, dict_keys in I.
  apply in_map_iff in I. destruct I as [[u z] [E I]]. simpl in E; subst u.
  apply filter_In in I. destruct I as [I L]. apply Z.ltb_lt in L.
  exists z. split; [|exact L].
  apply In_dict_get; [apply net_balances_cents | exact I].
Qed.

Lemma net_balances_keys_from debts net u :
  In u (dict_keys (fold_left DebtManager.net_step debts net)) ->
  In u (users_of debts) \/ In u (dict_keys net).
Proof.
  revert net. induction debts as [|[[d c] amt] debts IH]; intros net I.
  - right; exact I.
  - cbn [fold_left] in I. apply IH in I. destruct I as [I|I].
    + left. simpl. auto.
    + unfold DebtManager.net_step in I.
      apply dict_keys_set_In in I. destruct I as [->|I]; [left; simpl; auto|].
      apply dict_keys_set_In in I. destruct I as [->|I]; [left; simpl; auto|].
      right; exact I.
Qed.

Lemma net_balances_keys debts u :
  In u (dict_keys (DebtManager.net_balances debts)) -> In u (users_of debts).
Proof.
  intros I. apply net_balances_keys_from in I. destruct I as [I|[]]. exact I.
Qed.



(** ** The collapse keeps every net balance *)

Section NetValues.
Local Open Scope Z_scope.

Lemma debtor_cents_In (net : dict string Z) u x :
  In (u, x) (debtor_cents net) <-> In (u, - x) net /\ 0 < x.
Proof.
  unfold debtor_cents. rewrite in_map_iff. split.
  - intros [[u' z] [E I]]. apply filter_In in I. destruct I as [I L].
    apply Z.ltb_lt in L. inversion E; subst. simpl in *.
    rewrite Z.opp_involutive. split; [exact I | lia].
  - intros [I L]. exists (u, - x). simpl. rewrite Z.opp_involutive.
    split; [reflexivity|]. apply filter_In. split; [exact I|].
    apply Z.ltb_lt. simpl. lia.
Qed.

Lemma creditor_cents_In (net : dict string Z) u x :
  In (u, x) (creditor_cents net) <-> In (u, x) net /\ 0 < x.
Proof.
  unfold creditor_cents. rewrite filter_In. simpl.
  rewrite Z.ltb_lt. tauto.
Qed.

Lemma net_value_determined (net net' : dict string Z) u :
  NoDup (dict_keys net) -> NoDup (dict_keys net') ->
  Permutation (debtor_cents net') (debtor_cents net) ->
  Permutation (creditor_cents net') (creditor_cents net) ->
  dict_get_default net' u 0 = dict_get_default net u 0.
Proof.
  assert (Half : forall n n' : dict string Z,
    NoDup (dict_keys n) -> NoDup (dict_keys n') ->
    Permutation (debtor_cents n') (debtor_cents n) ->
    Permutation (creditor_cents n') (creditor_cents n) ->
    dict_get_default n u 0 <> 0 ->
    dict_get_default n' u 0 = dict_get_default n u 0).
  { intros n n' ND ND' Pd Pc NZ. unfold dict_get_default in *.
    destruct (dict_get n u) as [z|] eqn:G; [|contradiction].
    apply dict_get_In in G.
    destruct (Z.lt_trichotomy z 0) as [L|[->|L]]; [| contradiction |].
    - assert (I : In (u, - z) (debtor_cents n))
        by (apply debtor_cents_In; rewrite Z.opp_involutive; split; [exact G|lia]).
      apply (Permutation_in _ (Permutation_sym Pd)) in I.
      apply debtor_cents_In in I. destruct I as [I _].
      rewrite Z.opp_involutive in I.
      apply In_dict_get in I; [|exact ND']. rewrite I. reflexivity.
    - assert (I : In (u, z) (creditor_cents n))
        by (apply creditor_cents_In; split; [exact G|lia]).
      apply (Permutation_in _ (Permutation_sym Pc)) in I.
      apply creditor_cents_In in I. destruct I as [I _].
      apply In_dict_get in I; [|exact ND']. rewrite I. reflexivity. }
  intros ND ND' Pd Pc.
  destruct (Z.eq_dec (dict_get_default net u 0) 0) as [E|N].
  - destruct (Z.eq_dec (dict_get_default net' u 0) 0) as [E'|N'].
    + congruence.
    + symmetry. apply Half; auto using Permutation_sym.
  - apply Half; auto.
Qed.
End NetValues.

Lemma net_balance_cents debts u :
  dict_get_default (DebtManager.net_balances debts) u 0 ==
  cents (dict_get_default (net_cents debts) u 0%Z).
Proof.
  destruct (net_balances_cents debts) as [E _]. rewrite E at 1.
  apply of_cents_get_default.
Qed.



(** ** Debts in both directions *)

Lemma transfers_of_cents_ledger (entries : list ((string * string) * Z)) :
  net_cents (of_cents entries) = fold_left net_step_cents entries [].
Proof.
  rewrite net_cents_fold by apply cents_ledger_of_cents.
  rewrite ledger_cents_of_cents. reflexivity.
Qed.



(** ** The first expense of a group *)

Lemma round2_form x : round2 x = cents (Qnum (round2 x)).
Proof. reflexivity. Qed.

Lemma add_debt_fresh (entries : list ((string * string) * Z))
    (debtor creditor : User.t) (share : Q) :
  User.email debtor <> User.email creditor ->
  dict_get entries (User.email debtor, User.email creditor) = None ->
  epsilon < round2 share ->
  DebtManager._add_debt {| DebtManager.debts := of_cents entries |}
    debtor creditor share =
  {| DebtManager.debts :=
       of_cents (entries ++ [((User.email debtor, User.email creditor),
                              Qnum (round2 share))]) |}.
Proof.
  intros N G P. unfold DebtManager._add_debt.
  apply String.eqb_neq in N. rewrite N. cbn [DebtManager.debts].
  assert (G' : dict_get (of_cents entries)
                 (User.email debtor, User.email creditor) = None)
    by (rewrite of_cents_get, G; reflexivity).
  unfold dict_get_default. rewrite G'.
  assert (E : 0 + share == share) by lra.
  rewrite (round2_comp_eq E).
  assert (L : Qle_bool (round2 share) epsilon = false).
  { apply not_true_iff_false. rewrite Qle_bool_iff. lra. }
  rewrite L. rewrite dict_set_fresh by exact G'.
  rewrite of_cents_app. reflexivity.
Qed.

Section SingleCreditor.
Local Open Scope Z_scope.
Variable c : string.

Lemma greedy_single_creditor fuel ds :
  positive_amounts ds -> ds <> [] ->
  (List.length ds + 1 <= fuel)%nat ->
  greedy fuel ds [(c, total ds)] = owed_to c ds.
Proof.
  revert ds. induction fuel as [|fuel IH]; intros ds P NE L; [lia|].
  destruct ds as [|[d x] ds]; [contradiction|].
  unfold positive_amounts in P. inversion P as [|? ? Hx P']; subst.
  simpl in Hx, L. pose proof (positive_total_nonneg P') as T.
  cbn [greedy total fold_right snd owed_to map fst].
  fold (total ds).
  replace (x <=? x + total ds) with true by (symmetry; apply Z.leb_le; lia).
  rewrite Z.min_l by lia. f_equal.
  destruct ds as [|[d' x'] ds'].
  - simpl. rewrite Z.add_0_r, Z.leb_refl. destruct fuel; reflexivity.
  - assert (0 < total ((d', x') :: ds')).
    { inversion P' as [|? ? Hx' P'']; subst. simpl in Hx' |- *.
      pose proof (positive_total_nonneg P''). unfold total in *. lia. }
    replace (x + total ((d', x') :: ds') <=? x) with false
      by (symmetry; apply Z.leb_gt; lia).
    replace (x + total ((d', x') :: ds') - x) with (total ((d', x') :: ds'))
      by lia.
    apply IH; [exact P' | discriminate | simpl in *; lia].
Qed.

Lemma bump_same_key (ds : list (string * Z)) t :
  fold_left bump (map (fun dz => (c, snd dz)) ds) [(c, t)] =
  [(c, t + total ds)].
Proof.
  revert t. induction ds as [|[d x] ds IH]; intros t.
  - simpl. rewrite Z.add_0_r. reflexivity.
  - cbn [map fold_left snd]. unfold bump at 2, dict_get_default.
    simpl. rewrite String.eqb_refl. rewrite IH. simpl.
    fold (total ds). f_equal. f_equal. lia.
Qed.

Lemma single_creditor_transfers (ds : list (string * Z)) :
  NoDup (dict_keys ds) -> positive_amounts ds -> ~ In c (dict_keys ds) ->
  transfers (of_cents (owed_to c ds)) = owed_to c (stable_sort by_cents ds).
Proof.
  intros ND P NI.
  assert (F : Forall (transfer_ok (dict_keys ds) [c]) (owed_to c ds)).
  { unfold positive_amounts in P. rewrite Forall_forall in P |- *.
    intros e I. unfold owed_to in I. apply in_map_iff in I.
    destruct I as [[d x] [<- I]]. unfold transfer_ok. simpl.
    repeat split; auto.
    - change d with (fst (d, x)). apply in_map; exact I.
    - apply (P _ I). }
  assert (S0 : signs_ok (dict_keys ds) [c] []) by (intros u z G; discriminate G).
  assert (Disj : forall u, In u (dict_keys ds) -> In u [c] -> False)
    by (intros u I [<-|[]]; contradiction).
  destruct (views_fold Disj F S0) as [Vd Vc].
  assert (Ed : debtor_cents (fold_left net_step_cents (owed_to c ds) []) = ds).
  { unfold debtor_cents. rewrite Vd. unfold owed_to. rewrite map_map.
    cbn [fst snd filter]. rewrite bump_fold_fresh.
    - simpl. rewrite map_map. cbn [fst snd].
      rewrite <- (map_id ds) at 2. apply map_ext.
      intros [u z]; simpl. f_equal. lia.
    - unfold dict_keys. rewrite map_map. exact ND.
    - reflexivity. }
  assert (Ec : creditor_cents (fold_left net_step_cents (owed_to c ds) []) =
               match ds with [] => [] | _ => [(c, total ds)] end).
  { unfold creditor_cents. rewrite Vc. unfold owed_to. rewrite map_map.
    cbn [fst snd filter]. destruct ds as [|[d x] ds']; [reflexivity|].
    cbn [map fold_left snd]. unfold bump at 2, dict_get_default. simpl.
    rewrite bump_same_key. reflexivity. }
  unfold transfers, sorted_debtors, sorted_creditors.
  rewrite transfers_of_cents_ledger, Ed, Ec.
  destruct ds as [|[d x] ds'] eqn:Eds; [reflexivity|]. rewrite <- Eds in *.
  cbn [stable_sort fold_right insert_sorted List.length].
  fold (stable_sort by_cents ds).
  rewrite <- (total_perm (stable_sort_perm by_cents ds)).
  apply greedy_single_creditor.
  - unfold positive_amounts.
    eapply Permutation_Forall; [symmetry; apply stable_sort_perm | exact P].
  - intros E. pose proof (stable_sort_length by_cents ds) as Ln.
    rewrite E, Eds in Ln. discriminate Ln.
  - lia.
Qed.
End SingleCreditor.

Section FirstExpense.
Variable payer : User.t.

Definition add_share (self : DebtManager.t) (ps : User.t * Q) : DebtManager.t :=
  let '(participant, share) := ps in
  if String.eqb (User.email participant) (User.email payer) then self
  else DebtManager._add_debt self participant payer share.

Lemma owed_to_payer_get splits e :
  ~ In e (map User.email (dict_keys splits)) ->
  dict_get (owed_to_payer payer splits) (e, User.email payer) = None.
Proof.
  intros NI. apply dict_get_None. intros I. apply NI.
  unfold owed_to_payer, dict_keys in I. rewrite map_map in I.
  apply in_map_iff in I. destruct I as [[p s] [E I]].
  apply filter_In in I. destruct I as [I _]. inversion E; subst.
  apply in_map. change p with (fst (p, s)). apply in_map. exact I.
Qed.

Lemma add_shares_fresh splits entries :
  NoDup (map User.email (dict_keys splits)) ->
  (forall p s, In (p, s) splits -> User.email p <> User.email payer ->
               epsilon < round2 s) ->
  (forall p, In p (dict_keys splits) ->
             dict_get entries (User.email p, User.email payer) = None) ->
  fold_left add_share splits {| DebtManager.debts := of_cents entries |} =
  {| DebtManager.debts := of_cents (entries ++ owed_to_payer payer splits) |}.
Proof.
  revert entries. induction splits as [|[p s] splits IH];
    intros entries ND Pos Fresh.
  - simpl. rewrite app_nil_r. reflexivity.
  - simpl in ND. inversion ND as [|? ? NI ND']; subst.
    cbn [fold_left add_share]. unfold owed_to_payer. cbn [filter fst snd].
    destruct (String.eqb (User.email p) (User.email payer)) eqn:E.
    + cbn [negb]. apply IH; [exact ND' | |].
      * intros p' s' I. apply Pos. right; exact I.
      * intros p' I. apply Fresh. right; exact I.
    + cbn [negb map fst snd]. apply String.eqb_neq in E.
      rewrite add_debt_fresh;
        [| exact E | apply Fresh; left; reflexivity
         | apply (Pos p s); [left; reflexivity | exact E]].
      rewrite IH; [| exact ND' | |].
      * rewrite <- app_assoc. reflexivity.
      * intros p' s' I. apply Pos. right; exact I.
      * intros p' I.
        rewrite <- dict_set_fresh
          with (v := Qnum (round2 s)) by (apply Fresh; left; reflexivity).
        rewrite dict_get_set_other.
        -- apply Fresh. right; exact I.
        -- intros Ek. inversion Ek as [Ee]. apply NI. rewrite Ee.
           apply in_map. exact I.
Qed.

Lemma owed_to_payer_form splits :
  owed_to_payer payer splits =
  owed_to (User.email payer)
    (map (fun ps => (User.email (fst ps), Qnum (round2 (snd ps))))
         (filter (fun ps => negb (String.eqb (User.email (fst ps))
                                             (User.email payer))) splits)).
Proof. unfold owed_to_payer, owed_to. rewrite map_map. reflexivity. Qed.
End FirstExpense.

Lemma filter_keeps_distinct {A K} (key : A -> K) (keep : A -> bool) items :
  NoDup (map key items) -> NoDup (map key (filter keep items)).
Proof.
  induction items as [|x items IH]; simpl; [auto|].
  intros ND; inversion ND as [|? ? NI ND']; subst.
  destruct (keep x); simpl; [|auto].
  constructor; [|auto]. intros I; apply NI.
  apply in_map_iff in I. destruct I as [y [E I]].
  apply filter_In in I. destruct I as [I _].
  rewrite <- E. apply in_map; exact I.
Qed.

Lemma owed_to_NoDup c (ds : list (string * Z)) :
  NoDup (dict_keys ds) -> NoDup (dict_keys (owed_to c ds)).
Proof.
  unfold owed_to, dict_keys. rewrite map_map. cbn [fst].
  induction ds as [|[d x] ds IH]; simpl; intros ND; [constructor|].
  inversion ND as [|? ? NI ND']; subst.
  constructor; [|auto]. intros I; apply NI.
  apply in_map_iff in I. destruct I as [[d' x'] [E I]].
  inversion E; subst. change d with (fst (d, x')). apply in_map; exact I.
Qed.



(* ================================================================== *)
(** * Further properties of the ledger operations *)

(** X10.  [_add_debt] on a ledger without duplicate keys changes the entry
    debtor->creditor only: every other entry is as before, a debt to oneself
    changes nothing at all, and the entry itself is left absent or with the
    rounded sum, which is then above epsilon. *)
Theorem add_debt_effect
    (self : DebtManager.t) (debtor creditor : User.t) (amount : Q) :
  NoDup (dict_keys (DebtManager.debts self)) ->
  let key := (User.email debtor, User.email creditor) in
  let before := DebtManager.debts self in
  let after :=
    DebtManager.debts (DebtManager._add_debt self debtor creditor amount) in
  let v := round2 (dict_get_default before key 0 + amount) in
  NoDup (dict_keys after) /\
  (forall k, k <> key -> dict_get after k = dict_get before k) /\
  (User.email debtor = User.email creditor -> after = before) /\
  (User.email debtor <> User.email creditor ->
   dict_get after key = if Qle_bool v epsilon then None else Some v).
Proof.
  intros ND key before after v. unfold after, DebtManager._add_debt.
  fold key before v.
  destruct (String.eqb (User.email debtor) (User.email creditor)) eqn:E.
  - apply String.eqb_eq in E. repeat split; auto. intros N; contradiction.
  - apply String.eqb_neq in E.
    destruct (Qle_bool v epsilon) eqn:L; cbn [DebtManager.debts].
    + rewrite dict_pop_set. repeat split.
      * apply dict_pop_NoDup; exact ND.
      * intros k N. apply dict_get_pop_other; auto.
      * intros E'; contradiction.
      * intros _. apply dict_get_pop_same; exact ND.
    + repeat split.
      * apply dict_set_NoDup; exact ND.
      * intros k N. apply dict_get_set_other; auto.
      * intros E'; contradiction.
      * intros _. apply dict_get_set_same.
Qed.

Lemma add_debt_effect_witness :
  let ledger :=
    {| DebtManager.debts := [(("b@x.com", "a@x.com")%string, cents 1250)] |} in
  let after :=
    DebtManager.debts (DebtManager._add_debt ledger user_B user_A (cents 250)) in
  NoDup (dict_keys after) /\
  (forall k, k <> ("b@x.com", "a@x.com")%string ->
             dict_get after k = dict_get (DebtManager.debts ledger) k) /\
  (User.email user_B = User.email user_A -> after = DebtManager.debts ledger) /\
  (User.email user_B <> User.email user_A ->
   dict_get after ("b@x.com", "a@x.com")%string = Some (cents 1500)).
Proof.
  intros ledger.
  apply (@add_debt_effect ledger user_B user_A (cents 250)).
  repeat constructor. simpl; tauto.
Defined.

(** ** The summary *)

Lemma item_leb_total x y : item_leb x y = false -> item_leb y x = true.
Proof.
  unfold item_leb.
  rewrite (String.compare_antisym (fst (fst y)) (fst (fst x))).
  destruct (String.compare (fst (fst x)) (fst (fst y))); simpl;
    try discriminate; [|reflexivity].
  rewrite (String.compare_antisym (snd (fst y)) (snd (fst x))).
  destruct (String.compare (snd (fst x)) (snd (fst y))); simpl;
    try discriminate; [|reflexivity].
  intros L. apply not_true_iff_false in L. rewrite Qle_bool_iff in L.
  apply Qle_bool_iff. lra.
Qed.

(** X11.  The summary has one line per debt, each debt once, in the order
    of the debtor's key and then the creditor's; without debts it is the
    single line [No outstanding debts.]. *)
Theorem summary_lists_every_debt
    (self : DebtManager.t) (users_by_email : dict string User.t) :
  let lines := DebtManager.summary_lines self users_by_email in
  List.length lines = Nat.max 1 (List.length (DebtManager.debts self)) /\
  match DebtManager.debts self with
  | [] => lines = ["No outstanding debts."%string]
  | _ =>
      exists items,
        Permutation items (DebtManager.debts self) /\
        ascending item_leb items /\
        lines = map (summary_line users_by_email) items
  end.
Proof.
  intros lines. unfold lines, DebtManager.summary_lines.
  pose proof (stable_sort_perm item_leb (DebtManager.debts self)) as P.
  pose proof (stable_sort_ascending item_leb item_leb_total
                (DebtManager.debts self)) as A.
  pose proof (stable_sort_length item_leb (DebtManager.debts self)) as Ln.
  change (fun item : string * string * Q => _)
    with (summary_line users_by_email).
  destruct (DebtManager.debts self) as [|item debts] eqn:E.
  - split; reflexivity.
  - destruct (stable_sort item_leb (item :: debts)) as [|x sorted] eqn:S;
      [discriminate Ln|].
    cbn [map]. split.
    + cbn [List.length] in Ln |- *. rewrite length_map. lia.
    + exists (x :: sorted). auto.
Qed.

(** ** Expenses of non-members *)

Lemma find_first {A} (f : A -> bool) (l : list A) x :
  find f l = Some x ->
  exists before after,
    l = before ++ x :: after /\ f x = true /\
    forall y, In y before -> f y = false.
Proof.
  induction l as [|a l IH]; simpl; [discriminate|].
  destruct (f a) eqn:E.
  - intros [= <-]. exists [], l. repeat split; auto. intros y [].
  - intros F. destruct (IH F) as [before [after [-> [Hx Hb]]]].
    exists (a :: before), after. repeat split; auto.
    intros y [<-|I]; auto.
Qed.

(** X12.  An expense with a participant or a payer who is not a member of
    the group is refused before anything is recorded: [add_expense] raises
    for the first such user, participants first and the payer last, and
    returns the group as it was, history and debts included. *)
Theorem add_expense_refuses_non_members
    (self : Group.t) (expense : Expense.t) (p : User.t) :
  In p (Expense.participants expense ++ [Expense.payer expense]) ->
  ~ In (User.email p) (map User.email (Group.members self)) ->
  exists q before after,
    Expense.participants expense ++ [Expense.payer expense] =
      before ++ q :: after /\
    ~ In (User.email q) (map User.email (Group.members self)) /\
    (forall r, In r before ->
               In (User.email r) (map User.email (Group.members self))) /\
    Group.add_expense self expense =
      (self, Raise (ValueError (User_not_in_group q (Group.name self)))).
Proof.
  intros I N. unfold Group.add_expense.
  destruct (find _ _) as [q|] eqn:F.
  - destruct (find_first _ _ F) as [before [after [E [Hq Hb]]]].
    exists q, before, after. repeat split.
    + exact E.
    + intros M. apply mem_In in M. rewrite M in Hq. discriminate Hq.
    + intros r Ir. apply mem_In. specialize (Hb r Ir).
      apply negb_false_iff in Hb. exact Hb.
  - exfalso. pose proof (find_none _ _ F p I) as Hp.
    apply negb_false_iff, mem_In in Hp. contradiction.
Qed.

Lemma add_expense_refuses_non_members_witness :
  let group :=
    {| Group.name := "flat"; Group.members := [user_A; user_B];
       Group.expenses := [expense_unknown_policy];
       Group.debt_manager := ledger_1000 |} in
  exists q before after,
    Expense.participants expense_1000 ++ [Expense.payer expense_1000] =
      before ++ q :: after /\
    ~ In (User.email q) (map User.email (Group.members group)) /\
    (forall r, In r before ->
               In (User.email r) (map User.email (Group.members group))) /\
    Group.add_expense group expense_1000 =
      (group, Raise (ValueError (User_not_in_group q (Group.name group)))).
Proof.
  intros group.
  apply (@add_expense_refuses_non_members group expense_1000 user_C).
  - simpl. auto.
  - simpl. intros [E|[E|[]]]; discriminate E.
Defined.

(* ================================================================== *)
(** * Saving and loading *)

Section DictOfFresh.
Context {A K V : Type} `{KeyOk K} (key : A -> K) (val : A -> V).

Lemma dict_of_acc_fresh xs acc :
  NoDup (map key xs) ->
  (forall x, In x xs -> dict_get acc (key x) = None) ->
  fold_left (fun d x => dict_set d (key x) (val x)) xs acc =
  acc ++ map (fun x => (key x, val x)) xs.
Proof.
  revert acc. induction xs as [|x xs IH]; intros acc ND Fresh.
  - simpl. rewrite app_nil_r. reflexivity.
  - simpl in ND. inversion ND as [|? ? NI ND']; subst.
    cbn [fold_left map].
    rewrite dict_set_fresh by (apply Fresh; left; reflexivity).
    rewrite IH.
    + rewrite <- app_assoc. reflexivity.
    + exact ND'.
    + intros y I.
      rewrite <- dict_set_fresh with (v := val x)
        by (apply Fresh; left; reflexivity).
      rewrite dict_get_set_other.
      * apply Fresh. right; exact I.
      * intros E. apply NI. rewrite E. apply in_map; exact I.
Qed.

Lemma dict_of_fresh xs :
  NoDup (map key xs) ->
  dict_of key val xs = map (fun x => (key x, val x)) xs.
Proof. intros ND. unfold dict_of. rewrite dict_of_acc_fresh; auto. Qed.
End DictOfFresh.

Lemma dict_of_items {K V} `{KeyOk K} (d : dict K V) :
  NoDup (dict_keys d) -> dict_of (fun kv => fst kv) (fun kv => snd kv) d = d.
Proof.
  intros ND. rewrite dict_of_fresh by exact ND.
  rewrite <- (map_id d) at 2. apply map_ext. intros [k v]; reflexivity.
Qed.

Lemma dict_of_values {V} (key : V -> string) (d : dict string V) :
  keyed_by key d -> dict_of key (fun v => v) (dict_values d) = d.
Proof.
  intros [ND F].
  assert (E : map key (dict_values d) = dict_keys d).
  { unfold dict_values, dict_keys. rewrite map_map. apply map_ext_in.
    rewrite Forall_forall in F. intros kv I. symmetry. apply F, I. }
  rewrite dict_of_fresh by (rewrite E; exact ND).
  unfold dict_values. rewrite map_map.
  rewrite <- (map_id d) at 2. apply map_ext_in.
  rewrite Forall_forall in F. intros [k v] I.
  specialize (F _ I). simpl in F. simpl. rewrite F. reflexivity.
Qed.

Section Reload.
Variable users : dict string User.t.

Lemma lookup_all_registered us :
  Forall (registered users) us ->
  Storage.lookup_all users (map User.email us) = Ok us.
Proof.
  induction 1 as [|u us Hu _ IH]; [reflexivity|].
  cbn [map Storage.lookup_all]. unfold dict_getitem.
  unfold registered in Hu. rewrite Hu. cbn [bind]. rewrite IH. reflexivity.
Qed.

Lemma members_registered ms :
  Forall (registered users) ms ->
  flat_map (fun email => match dict_get users email with
                         | Some u => [u]
                         | None => []
                         end) (map User.email ms) = ms.
Proof.
  induction 1 as [|u us Hu _ IH]; [reflexivity|].
  cbn [map flat_map]. unfold registered in Hu. rewrite Hu, IH. reflexivity.
Qed.

Lemma add_expense_ok group e group' :
  Group.add_expense group e = (group', Ok tt) ->
  Group.name group' = Group.name group /\
  Group.members group' = Group.members group /\
  Group.expenses group' = Group.expenses group ++ [e].
Proof.
  unfold Group.add_expense. destruct (find _ _); [discriminate|].
  destruct (DebtManager.update_debts_for_expense _ _) as [dm outcome].
  intros [= <- ->]. auto.
Qed.

Lemma load_expense_registered group e group' :
  registered users (Expense.payer e) ->
  Forall (registered users) (Expense.participants e) ->
  Storage.load_expense users group (Storage.save_expense e) = Ok group' ->
  Group.add_expense group (reloaded_expense e) = (group', Ok tt).
Proof.
  intros Hp Hs. unfold Storage.load_expense, Storage.save_expense.
  cbn [Storage.payer Storage.participants Storage.description Storage.amount
       Storage.strategy Storage.details].
  unfold dict_getitem. unfold registered in Hp. rewrite Hp. cbn [bind].
  rewrite (lookup_all_registered Hs). cbn [bind].
  fold (reloaded_expense e).
  destruct (Group.add_expense group (reloaded_expense e)) as [g [[]|x]];
    cbn [bind]; [|discriminate].
  intros [= ->]. reflexivity.
Qed.

Lemma load_expenses_registered es group group' :
  Forall (fun e => registered users (Expense.payer e) /\
                   Forall (registered users) (Expense.participants e)) es ->
  Storage.load_expenses users group (map Storage.save_expense es) = Ok group' ->
  Group.name group' = Group.name group /\
  Group.members group' = Group.members group /\
  Group.expenses group' = Group.expenses group ++ map reloaded_expense es.
Proof.
  intros F. revert group. induction F as [|e es [Hp Hs] _ IH]; intros group L.
  - simpl in L. inversion L; subst. rewrite app_nil_r. auto.
  - cbn [map Storage.load_expenses] in L.
    destruct (Storage.load_expense users group (Storage.save_expense e))
      as [g1|x] eqn:L1; cbn [bind] in L; [|discriminate].
    apply load_expense_registered in L1; [|exact Hp|exact Hs].
    apply add_expense_ok in L1. destruct L1 as [N1 [M1 E1]].
    apply IH in L. destruct L as [N [M E]].
    rewrite N, M, E, N1, M1, E1. cbn [map]. rewrite <- app_assoc. auto.
Qed.

Lemma load_group_registered g group' :
  group_of_registered users g ->
  Storage.load_group users (Storage.save_group g) = Ok group' ->
  group' = reloaded_group g.
Proof.
  intros [Hm [He Hd]]. unfold Storage.load_group, Storage.save_group.
  cbn [Storage.name Storage.members Storage.expenses Storage.debts].
  rewrite (members_registered Hm).
  destruct (Storage.load_expenses _ _ _) as [g1|x] eqn:L; cbn [bind];
    [|discriminate].
  apply load_expenses_registered in L; [|exact He].
  destruct L as [N [M E]]. cbn in N, M, E.
  intros [= <-]. rewrite N, M, E, (dict_of_items _ Hd).
  reflexivity.
Qed.

Lemma load_groups_registered (gs : dict string Group.t) acc groups' :
  Forall (fun kv => group_of_registered users (snd kv)) gs ->
  Storage.load_groups users (map Storage.save_group (dict_values gs)) acc
    = Ok groups' ->
  groups' =
  fold_left (fun d g => dict_set d (Group.name g) (reloaded_group g))
            (dict_values gs) acc.
Proof.
  intros F. revert acc. induction F as [|[k g] gs Hg _ IH]; intros acc L.
  - simpl in L. inversion L; reflexivity.
  - cbn [dict_values map snd Storage.load_groups] in L.
    destruct (Storage.load_group users (Storage.save_group g)) as [g1|x] eqn:L1;
      cbn [bind] in L; [|discriminate].
    apply load_group_registered in L1; [|exact Hg]. subst g1.
    apply IH in L. exact L.
Qed.
End Reload.

(** X13.  Loading what was saved gives the users back as they were, and
    every group under its name with its members, with its history (an
    expense without details now has empty details) and with its ledger
    collapsed once more, provided the directory is keyed by email, the
    groups by name, and members, payers and participants are users of the
    directory. *)
Theorem reload_restores_users_and_groups
    (users users' : dict string User.t) (groups groups' : dict string Group.t) :
  keyed_by User.email users ->
  keyed_by Group.name groups ->
  Forall (fun kv => group_of_registered users (snd kv)) groups ->
  Storage.load (Storage.save users groups) = Ok (users', groups') ->
  users' = users /\
  groups' = map (fun kv => (fst kv, reloaded_group (snd kv))) groups.
Proof.
  intros Ku Kg Hg. unfold Storage.load, Storage.save.
  cbn [Storage.users Storage.groups].
  rewrite (dict_of_values Ku).
  destruct (Storage.load_groups _ _ _) as [gs|x] eqn:L; cbn [bind];
    [|discriminate].
  intros [= <- <-]. split; [reflexivity|].
  apply load_groups_registered in L; [|exact Hg]. subst gs.
  destruct Kg as [ND F].
  change (dict_of Group.name reloaded_group (dict_values groups) =
          map (fun kv => (fst kv, reloaded_group (snd kv))) groups).
  assert (E : map Group.name (dict_values groups) = dict_keys groups).
  { unfold dict_values, dict_keys. rewrite map_map. apply map_ext_in.
    rewrite Forall_forall in F. intros kv I. symmetry. apply F, I. }
  rewrite dict_of_fresh by (rewrite E; exact ND).
  unfold dict_values. rewrite map_map. apply map_ext_in.
  rewrite Forall_forall in F. intros [k g] I.
  specialize (F _ I). simpl in F. simpl. rewrite F. reflexivity.
Qed.

Lemma reload_restores_users_and_groups_witness :
  let groups := [("trip"%string, group_trip)] in
  users_ABC = users_ABC /\
  [("trip"%string, reloaded_group group_trip)] =
  map (fun kv => (fst kv, reloaded_group (snd kv))) groups.
Proof.
  intros groups.
  apply (@reload_restores_users_and_groups users_ABC users_ABC groups
           [("trip"%string, reloaded_group group_trip)]).
  - split.
    + repeat constructor; simpl; intuition discriminate.
    + repeat constructor.
  - split.
    + repeat constructor; simpl; intuition discriminate.
    + repeat constructor.
  - constructor; [|constructor]. split; [|split].
    + vm_compute. repeat constructor.
    + vm_compute. repeat constructor.
    + vm_compute. repeat constructor; simpl; intuition discriminate.
  - vm_compute. reflexivity.
Defined.

(** ** A rejected expense in the history *)

Lemma details_or_empty_equal amount participants details :
  EqualSplit.calculate_shares amount participants
    (Some (Storage.details_or_empty details)) =
  EqualSplit.calculate_shares amount participants details.
Proof. reflexivity. Qed.

Lemma details_or_empty_unequal amount participants details :
  UnequalSplit.calculate_shares amount participants
    (Some (Storage.details_or_empty details)) =
  UnequalSplit.calculate_shares amount participants details.
Proof. destruct details as [[[?|] ? ?]|]; reflexivity. Qed.

Lemma details_or_empty_percent amount participants details :
  PercentSplit.calculate_shares amount participants
    (Some (Storage.details_or_empty details)) =
  PercentSplit.calculate_shares amount participants details.
Proof. destruct details as [[? [?|] ?]|]; reflexivity. Qed.

Lemma details_or_empty_shares amount participants details :
  SharesSplit.calculate_shares amount participants
    (Some (Storage.details_or_empty details)) =
  SharesSplit.calculate_shares amount participants details.
Proof. destruct details as [[? ? [?|]]|]; reflexivity. Qed.

Section SameEmails.
Variables participants participants' : list User.t.
Hypothesis same_emails :
  map User.email participants = map User.email participants'.

Lemma set_eqb_same_emails (keys : list string) :
  set_eqb keys (dict_keys (email_to_user_of participants')) = true ->
  set_eqb keys (dict_keys (email_to_user_of participants)) = true.
Proof.
  intros S. apply set_eqb_In. intros e.
  rewrite (proj1 (set_eqb_In _ _) S e), !email_to_user_keys, same_emails.
  reflexivity.
Qed.

Lemma equal_split_still_raises amount details x :
  EqualSplit.calculate_shares amount participants details = Raise x ->
  exists y,
    EqualSplit.calculate_shares amount participants' details = Raise y.
Proof.
  destruct participants as [|p rest].
  - destruct participants'; [|discriminate same_emails].
    intros _. eexists; reflexivity.
  - intros R. apply equal_split_raises in R as X. subst x.
    unfold EqualSplit.calculate_shares in R.
    cbn [List.length Nat.eqb] in R.
    set (shares := dict_of _ _ _) in R.
    assert (I : In p (dict_keys shares)).
    { unfold shares. apply dict_of_mem. rewrite map_id. left; reflexivity. }
    destruct (dict_get shares p) as [s|] eqn:G.
    + rewrite absorb_remainder_ok with (s := s) in R by exact G.
      discriminate R.
    + apply dict_get_None in G. contradiction.
Qed.

Lemma unequal_split_still_raises amount details x :
  UnequalSplit.calculate_shares amount participants details = Raise x ->
  exists y,
    UnequalSplit.calculate_shares amount participants' details = Raise y.
Proof.
  unfold UnequalSplit.calculate_shares.
  destruct details as [[[amounts|] ? ?]|]; try (eexists; reflexivity).
  destruct (set_eqb _ (dict_keys (email_to_user_of participants'))) eqn:S';
    cbn [negb]; [|eexists; reflexivity].
  pose proof (set_eqb_same_emails _ S') as S. rewrite S. cbn [negb].
  destruct (Qeq_bool _ _); cbn [negb]; [|eexists; reflexivity].
  intros R. exfalso.
  destruct (@comprehension_ok Q Q (fun _ v => round2 v)
              (email_to_user_of participants) amounts []) as [d Hd].
  - intros e I. apply (proj1 (set_eqb_In _ _) S) in I.
    intros G. apply dict_get_None in G. contradiction.
  - rewrite Hd in R. discriminate R.
Qed.

Lemma percent_split_still_raises amount details x :
  PercentSplit.calculate_shares amount participants details = Raise x ->
  exists y,
    PercentSplit.calculate_shares amount participants' details = Raise y.
Proof.
  unfold PercentSplit.calculate_shares.
  destruct details as [[? [percents|] ?]|]; try (eexists; reflexivity).
  destruct (set_eqb _ (dict_keys (email_to_user_of participants'))) eqn:S';
    cbn [negb]; [|eexists; reflexivity].
  pose proof (set_eqb_same_emails _ S') as S. rewrite S. cbn [negb].
  destruct (Qltb _ _) eqn:T; [eexists; reflexivity|].
  intros R. exfalso.
  destruct (@weighted_shares_ok Q amount (fun pct => py_truediv pct 100) percents
              (email_to_user_of participants)) as [d Hd].
  - intros ->. vm_compute in T. discriminate T.
  - intros e I. apply (proj1 (set_eqb_In _ _) S) in I.
    intros G. apply dict_get_None in G. contradiction.
  - unfold weighted_shares in Hd. rewrite Hd in R. discriminate R.
Qed.

Lemma shares_split_still_raises amount details x :
  SharesSplit.calculate_shares amount participants details = Raise x ->
  exists y,
    SharesSplit.calculate_shares amount participants' details = Raise y.
Proof.
  unfold SharesSplit.calculate_shares.
  destruct details as [[? ? [shares_map|]]|]; try (eexists; reflexivity).
  destruct (set_eqb _ (dict_keys (email_to_user_of participants'))) eqn:S';
    cbn [negb]; [|eexists; reflexivity].
  pose proof (set_eqb_same_emails _ S') as S. rewrite S. cbn [negb].
  destruct (Z.leb_spec (fold_left Z.add (dict_values shares_map) 0%Z) 0)
    as [T|T]; [eexists; reflexivity|].
  intros R. exfalso.
  destruct (@weighted_shares_ok Z amount
              (fun s => int_truediv s
                 (fold_left Z.add (dict_values shares_map) 0%Z))
              shares_map (email_to_user_of participants)) as [d Hd].
  - intros ->. simpl in T. lia.
  - intros e I. apply (proj1 (set_eqb_In _ _) S) in I.
    intros G. apply dict_get_None in G. contradiction.
  - unfold weighted_shares in Hd. rewrite Hd in R. discriminate R.
Qed.
End SameEmails.

(** Whether the shares of an expense are refused depends on its amount,
    its strategy, the emails of its participants and its details, where no
    details and empty details count the same. *)
Lemma splits_still_raise (e e' : Expense.t) x :
  Expense.amount e' = Expense.amount e ->
  Expense.strategy_name e' = Expense.strategy_name e ->
  map User.email (Expense.participants e) =
    map User.email (Expense.participants e') ->
  Expense.details e' = Some (Storage.details_or_empty (Expense.details e)) ->
  Expense.calculate_splits e = Raise x ->
  exists y, Expense.calculate_splits e' = Raise y.
Proof.
  intros Ea En Ep Ed. unfold Expense.calculate_splits, strategy_from_name.
  rewrite Ea, En, Ed.
  destruct (mem _ ["equal"%string]).
  { cbn [bind SplitStrategy.calculate_shares EqualSplit.new].
    rewrite details_or_empty_equal. apply equal_split_still_raises, Ep. }
  destruct (mem _ ["unequal"; "amounts"]%string).
  { cbn [bind SplitStrategy.calculate_shares UnequalSplit.new].
    rewrite details_or_empty_unequal. apply unequal_split_still_raises, Ep. }
  destruct (mem _ ["percent"; "percentage"; "percents"]%string).
  { cbn [bind SplitStrategy.calculate_shares PercentSplit.new].
    rewrite details_or_empty_percent. apply percent_split_still_raises, Ep. }
  destruct (mem _ ["shares"; "ratio"]%string).
  { cbn [bind SplitStrategy.calculate_shares SharesSplit.new].
    rewrite details_or_empty_shares. apply shares_split_still_raises, Ep. }
  intros _. eexists; reflexivity.
Qed.

Section Replay.
Variable users : dict string User.t.
Hypothesis users_by_email :
  forall k u, dict_get users k = Some u -> User.email u = k.

Lemma lookup_all_emails emails us :
  Storage.lookup_all users emails = Ok us -> map User.email us = emails.
Proof.
  revert us. induction emails as [|em rest IH]; intros us L.
  - simpl in L. inversion L; reflexivity.
  - cbn [Storage.lookup_all] in L. unfold dict_getitem in L.
    destruct (dict_get users em) as [u|] eqn:G; [|discriminate L].
    cbn [bind] in L.
    destruct (Storage.lookup_all users rest) as [us'|] eqn:L';
      [|discriminate L].
    cbn [bind] in L. inversion L; subst.
    cbn [map]. rewrite (users_by_email _ G), (IH _ eq_refl). reflexivity.
Qed.

Lemma load_expense_raises group e x :
  Expense.calculate_splits e = Raise x ->
  exists y,
    Storage.load_expense users group (Storage.save_expense e) = Raise y.
Proof.
  intros R. unfold Storage.load_expense, Storage.save_expense.
  cbn [Storage.payer Storage.participants Storage.description Storage.amount
       Storage.strategy Storage.details].
  destruct (dict_getitem users (User.email (Expense.payer e))) as [payer|y];
    cbn [bind]; [|eexists; reflexivity].
  destruct (Storage.lookup_all users (map User.email (Expense.participants e)))
    as [us|y] eqn:L; cbn [bind]; [|eexists; reflexivity].
  apply lookup_all_emails in L.
  match goal with
  | |- context [Group.add_expense group ?exp] => set (e' := exp)
  end.
  destruct (@splits_still_raise e e' x) as [y Hy]; auto.
  unfold Group.add_expense.
  destruct (find _ _); [cbn [bind]; eexists; reflexivity|].
  unfold DebtManager.update_debts_for_expense. rewrite Hy.
  cbn [bind]. eexists; reflexivity.
Qed.

Lemma load_expenses_raise es e x :
  In e es ->
  Expense.calculate_splits e = Raise x ->
  forall group, exists y,
    Storage.load_expenses users group (map Storage.save_expense es) = Raise y.
Proof.
  intros I R. induction es as [|e0 es IH]; [destruct I|].
  intros group. cbn [map Storage.load_expenses].
  destruct I as [->|I].
  - destruct (load_expense_raises group _ R) as [y ->].
    cbn [bind]. eexists; reflexivity.
  - destruct (Storage.load_expense users group (Storage.save_expense e0))
      as [g1|y]; cbn [bind]; [|eexists; reflexivity].
    apply IH, I.
Qed.

Lemma load_group_raises g e x :
  In e (Group.expenses g) ->
  Expense.calculate_splits e = Raise x ->
  exists y, Storage.load_group users (Storage.save_group g) = Raise y.
Proof.
  intros I R. unfold Storage.load_group, Storage.save_group.
  cbn [Storage.name Storage.members Storage.expenses Storage.debts].
  match goal with
  | |- context [Storage.load_expenses users ?group _] =>
      destruct (load_expenses_raise _ _ I R group) as [y ->]
  end.
  cbn [bind]. eexists; reflexivity.
Qed.

Lemma load_groups_raise gs g e x :
  In g gs ->
  In e (Group.expenses g) ->
  Expense.calculate_splits e = Raise x ->
  forall acc, exists y,
    Storage.load_groups users (map Storage.save_group gs) acc = Raise y.
Proof.
  intros Ig I R. induction gs as [|g0 gs IH]; [destruct Ig|].
  intros acc. cbn [map Storage.load_groups].
  destruct Ig as [->|Ig].
  - destruct (load_group_raises _ _ I R) as [y ->].
    cbn [bind]. eexists; reflexivity.
  - destruct (Storage.load_group users (Storage.save_group g0)) as [g1|y];
      cbn [bind]; [|eexists; reflexivity].
    apply IH, Ig.
Qed.
End Replay.

(** X14.  A history that holds an expense whose shares are refused cannot
    be loaded again: loading replays every expense of every group, so the
    load of what was saved raises, whatever else was saved. *)
Theorem rejected_expense_blocks_reload
    (users : dict string User.t) (groups : dict string Group.t)
    (g : Group.t) (e : Expense.t) (x : exn) :
  In g (dict_values groups) ->
  In e (Group.expenses g) ->
  Expense.calculate_splits e = Raise x ->
  exists y, Storage.load (Storage.save users groups) = Raise y.
Proof.
  intros Ig I R. unfold Storage.load, Storage.save.
  cbn [Storage.users Storage.groups].
  destruct (@load_groups_raise
              (dict_of User.email (fun u => u) (dict_values users))
              (fun k u G => email_to_user_email _ _ G)
              (dict_values groups) g e x Ig I R []) as [y ->].
  cbn [bind]. eexists; reflexivity.
Qed.

Lemma rejected_expense_blocks_reload_witness :
  exists y,
    Storage.load (Storage.save users_ABC [("dinner"%string, group_dinner)])
    = Raise y.
Proof.
  apply (@rejected_expense_blocks_reload users_ABC
           [("dinner"%string, group_dinner)] group_dinner
           expense_unknown_policy
           (ValueError (Unknown_split_type "halves"))).
  - left; reflexivity.
  - left; reflexivity.
  - reflexivity.
Defined.

(** ** A history of accepted expenses *)

Lemma calculate_splits_reloaded e :
  Expense.calculate_splits (reloaded_expense e) = Expense.calculate_splits e.
Proof.
  unfold Expense.calculate_splits, reloaded_expense, strategy_from_name.
  cbn [Expense.strategy_name Expense.amount Expense.participants
       Expense.details].
  destruct (mem _ ["equal"%string]); [reflexivity|].
  destruct (mem _ ["unequal"; "amounts"]%string);
    [apply details_or_empty_unequal|].
  destruct (mem _ ["percent"; "percentage"; "percents"]%string);
    [apply details_or_empty_percent|].
  destruct (mem _ ["shares"; "ratio"]%string);
    [apply details_or_empty_shares|].
  reflexivity.
Qed.

Section ReloadAccepted.
Variable users : dict string User.t.

Lemma load_expense_accepted group e splits :
  registered users (Expense.payer e) ->
  Forall (registered users) (Expense.participants e) ->
  (forall p, In p (Expense.participants e ++ [Expense.payer e]) ->
             In (User.email p) (map User.email (Group.members group))) ->
  Expense.calculate_splits e = Ok splits ->
  exists group',
    Storage.load_expense users group (Storage.save_expense e) = Ok group' /\
    Group.members group' = Group.members group.
Proof.
  intros Hp Hs Hm C. unfold Storage.load_expense, Storage.save_expense.
  cbn [Storage.payer Storage.participants Storage.description Storage.amount
       Storage.strategy Storage.details].
  unfold dict_getitem. unfold registered in Hp. rewrite Hp. cbn [bind].
  rewrite (lookup_all_registered Hs). cbn [bind].
  fold (reloaded_expense e). unfold Group.add_expense.
  cbn [reloaded_expense Expense.participants Expense.payer].
  destruct (find _ _) as [p|] eqn:F.
  { exfalso. apply find_some in F. destruct F as [I N].
    apply Hm, mem_In in I. rewrite I in N. discriminate N. }
  unfold DebtManager.update_debts_for_expense.
  fold (reloaded_expense e). rewrite calculate_splits_reloaded, C.
  cbn [bind]. eexists. split; reflexivity.
Qed.

Lemma load_expenses_accepted es members :
  Forall (fun e =>
            registered users (Expense.payer e) /\
            Forall (registered users) (Expense.participants e)) es ->
  Forall (fun e =>
            (forall p, In p (Expense.participants e ++ [Expense.payer e]) ->
                       In (User.email p) (map User.email members)) /\
            exists splits, Expense.calculate_splits e = Ok splits) es ->
  forall group,
    Group.members group = members ->
    exists group',
      Storage.load_expenses users group (map Storage.save_expense es)
      = Ok group'.
Proof.
  intros R. induction R as [|e es [Hp Hs] _ IH]; intros A group M.
  - eexists; reflexivity.
  - inversion A as [|? ? [Hm [splits C]] A']; subst.
    cbn [map Storage.load_expenses].
    destruct (@load_expense_accepted group e splits) as [g1 [-> M1]]; auto.
    cbn [bind]. apply IH; [exact A'|exact M1].
Qed.

Lemma load_group_accepted g :
  group_of_registered users g ->
  accepted_history g ->
  Storage.load_group users (Storage.save_group g) = Ok (reloaded_group g).
Proof.
  intros G A.
  destruct (Storage.load_group users (Storage.save_group g)) as [g'|x] eqn:L.
  - apply load_group_registered in L; [|exact G]. subst g'. reflexivity.
  - exfalso. destruct G as [Hm [He _]].
    unfold Storage.load_group, Storage.save_group in L.
    cbn [Storage.name Storage.members Storage.expenses Storage.debts] in L.
    rewrite (members_registered Hm) in L.
    match type of L with
    | context [Storage.load_expenses users ?group _] =>
        destruct (@load_expenses_accepted (Group.expenses g) (Group.members g)
                    He A group eq_refl) as [g1 L1]
    end.
    rewrite L1 in L. discriminate L.
Qed.

Lemma load_groups_accepted (gs : dict string Group.t) acc :
  Forall (fun kv => group_of_registered users (snd kv)) gs ->
  Forall (fun kv => accepted_history (snd kv)) gs ->
  Storage.load_groups users (map Storage.save_group (dict_values gs)) acc =
  Ok (fold_left (fun d g => dict_set d (Group.name g) (reloaded_group g))
                (dict_values gs) acc).
Proof.
  intros G. revert acc. induction G as [|[k g] gs Hg _ IH]; intros acc A.
  - reflexivity.
  - inversion A as [|? ? Ha A']; subst.
    cbn [dict_values map snd Storage.load_groups fold_left].
    simpl in Hg, Ha.
    rewrite (load_group_accepted Hg Ha). cbn [bind reloaded_group Group.name].
    apply IH, A'.
Qed.
End ReloadAccepted.

(** X15.  When every expense of every history passes the checks of
    [add_expense], loading what was saved succeeds: the users come back as
    they were and every group under its name, in the saved order. *)
Theorem reload_succeeds
    (users : dict string User.t) (groups : dict string Group.t) :
  keyed_by User.email users ->
  keyed_by Group.name groups ->
  Forall (fun kv => group_of_registered users (snd kv)) groups ->
  Forall (fun kv => accepted_history (snd kv)) groups ->
  Storage.load (Storage.save users groups) =
  Ok (users, map (fun kv => (fst kv, reloaded_group (snd kv))) groups).
Proof.
  intros Ku Kg Hg Ha. unfold Storage.load, Storage.save.
  cbn [Storage.users Storage.groups].
  rewrite (dict_of_values Ku).
  rewrite (load_groups_accepted [] Hg Ha). cbn [bind].
  destruct Kg as [ND F].
  change (fold_left (fun d g => dict_set d (Group.name g) (reloaded_group g))
            (dict_values groups) [])
    with (dict_of Group.name reloaded_group (dict_values groups)).
  assert (E : map Group.name (dict_values groups) = dict_keys groups).
  { unfold dict_values, dict_keys. rewrite map_map. apply map_ext_in.
    rewrite Forall_forall in F. intros kv I. symmetry. apply F, I. }
  rewrite dict_of_fresh by (rewrite E; exact ND).
  do 2 f_equal.
  unfold dict_values. rewrite map_map. apply map_ext_in.
  rewrite Forall_forall in F. intros [k g] I.
  specialize (F _ I). simpl in F. simpl. rewrite F. reflexivity.
Qed.

Lemma reload_succeeds_witness :
  let groups := [("trip"%string, group_trip)] in
  Storage.load (Storage.save users_ABC groups) =
  Ok (users_ABC, map (fun kv => (fst kv, reloaded_group (snd kv))) groups).
Proof.
  intros groups.
  apply (@reload_succeeds users_ABC groups).
  - split.
    + repeat constructor; simpl; intuition discriminate.
    + repeat constructor.
  - split.
    + repeat constructor; simpl; intuition discriminate.
    + repeat constructor.
  - constructor; [|constructor]. split; [|split].
    + vm_compute. repeat constructor.
    + vm_compute. repeat constructor.
    + vm_compute. repeat constructor; simpl; intuition discriminate.
  - constructor; [|constructor]. unfold accepted_history. cbn [snd].
    replace (Group.expenses group_trip) with [expense_1000]
      by (vm_compute; reflexivity).
    constructor; [|constructor]. split.
    + intros p I. vm_compute in I. vm_compute.
      intuition (subst; auto).
    + eexists. vm_compute. reflexivity.
Defined.

(** ** Ledgers that are left collapsed *)

Lemma is_cents_round2 x : is_cents (round2 x) = true.
Proof.
  apply is_cents_spec. destruct (round2_is_cents x) as [k ->].
  exists k; reflexivity.
Qed.

Section CentsLedger.
Context {K : Type} `{Key K}.

Lemma cents_ledger_set (d : dict K Q) k v :
  forallb (fun kv => is_cents (snd kv)) d = true ->
  is_cents v = true ->
  forallb (fun kv => is_cents (snd kv)) (dict_set d k v) = true.
Proof.
  intros C Hv. induction d as [|[k' v'] d IH]; simpl.
  - rewrite Hv; reflexivity.
  - simpl in C. apply andb_true_iff in C. destruct C as [C1 C2].
    destruct (key_eqb k' k); simpl.
    + rewrite Hv, C2; reflexivity.
    + rewrite C1, (IH C2); reflexivity.
Qed.

Lemma cents_ledger_pop (d : dict K Q) k :
  forallb (fun kv => is_cents (snd kv)) d = true ->
  forallb (fun kv => is_cents (snd kv)) (dict_pop d k) = true.
Proof.
  intros C. induction d as [|[k' v'] d IH]; simpl; [reflexivity|].
  simpl in C. apply andb_true_iff in C. destruct C as [C1 C2].
  destruct (key_eqb k' k); simpl; [exact C2|].
  rewrite C1, (IH C2); reflexivity.
Qed.
End CentsLedger.

Lemma add_debt_cents self debtor creditor amount :
  cents_ledger (DebtManager.debts self) = true ->
  cents_ledger (DebtManager.debts
                  (DebtManager._add_debt self debtor creditor amount)) = true.
Proof.
  intros C. unfold DebtManager._add_debt.
  destruct (String.eqb _ _); [exact C|].
  destruct (Qle_bool _ _); cbn [DebtManager.debts]; unfold cents_ledger.
  - apply cents_ledger_pop, cents_ledger_set;
      [exact C | apply is_cents_round2].
  - apply cents_ledger_set; [exact C | apply is_cents_round2].
Qed.

Lemma settle_up_entry_cents self payer receiver amount :
  cents_ledger (DebtManager.debts self) = true ->
  cents_ledger (DebtManager.debts
                  (DebtManager.settle_up_entry self payer receiver amount))
  = true.
Proof.
  intros C. unfold DebtManager.settle_up_entry.
  destruct (negb _).
  - destruct (dict_mem _ _); cbn [DebtManager.debts]; unfold cents_ledger;
      (apply cents_ledger_set; [exact C | apply is_cents_round2]).
  - destruct (Qle_bool _ _); cbn [DebtManager.debts]; unfold cents_ledger.
    + apply cents_ledger_pop, cents_ledger_set;
        [exact C | apply is_cents_round2].
    + apply cents_ledger_set; [exact C | apply is_cents_round2].
Qed.

Lemma collapsed_cents dm :
  collapsed dm -> cents_ledger (DebtManager.debts dm) = true.
Proof.
  unfold collapsed. intros <-. rewrite simplify_debts_transfers.
  apply cents_ledger_of_cents.
Qed.

Lemma collapse_of_cents_collapsed self :
  cents_ledger (DebtManager.debts self) = true ->
  collapsed (DebtManager.simplify_debts self).
Proof.
  intros C. unfold collapsed.
  assert (D : DebtManager.debts
                (DebtManager.simplify_debts (DebtManager.simplify_debts self)) =
              DebtManager.debts (DebtManager.simplify_debts self)).
  { rewrite (simplify_debts_transfers (DebtManager.simplify_debts self)).
    rewrite (simplify_debts_transfers self).
    rewrite transfers_again by exact C. reflexivity. }
  transitivity
    {| DebtManager.debts :=
         DebtManager.debts
           (DebtManager.simplify_debts (DebtManager.simplify_debts self)) |};
    [reflexivity|].
  rewrite D. reflexivity.
Qed.

Lemma add_debts_cents splits payer self :
  cents_ledger (DebtManager.debts self) = true ->
  cents_ledger
    (DebtManager.debts
       (fold_left
          (fun self (ps : User.t * Q) =>
             let '(participant, share) := ps in
             if String.eqb (User.email participant) (User.email payer)
             then self
             else DebtManager._add_debt self participant payer share)
          splits self)) = true.
Proof.
  revert self. induction splits as [|[p s] splits IH]; intros self C.
  - exact C.
  - cbn [fold_left]. apply IH.
    destruct (String.eqb _ _); [exact C | apply add_debt_cents, C].
Qed.



(** X17.  Who owes whom survives saving and loading: when the ledgers of
    the groups are collapsed, as every operation leaves them, the groups
    that a load of the saved document returns have the ledgers they were
    saved with. *)
Theorem reload_keeps_ledgers
    (users users' : dict string User.t) (groups groups' : dict string Group.t) :
  keyed_by User.email users ->
  keyed_by Group.name groups ->
  Forall (fun kv => group_of_registered users (snd kv)) groups ->
  Forall (fun kv => collapsed (Group.debt_manager (snd kv))) groups ->
  Storage.load (Storage.save users groups) = Ok (users', groups') ->
  map (fun kv => (fst kv, Group.debt_manager (snd kv))) groups' =
  map (fun kv => (fst kv, Group.debt_manager (snd kv))) groups.
Proof.
  intros Ku Kg Hg Hc. unfold Storage.load, Storage.save.
  cbn [Storage.users Storage.groups].
  rewrite (dict_of_values Ku).
  destruct (Storage.load_groups _ _ _) as [gs|x] eqn:L; cbn [bind];
    [|discriminate].
  intros [= _ <-].
  apply load_groups_registered in L; [|exact Hg]. subst gs.
  destruct Kg as [ND F].
  change (fold_left (fun d g => dict_set d (Group.name g) (reloaded_group g))
            (dict_values groups) [])
    with (dict_of Group.name reloaded_group (dict_values groups)).
  assert (E : map Group.name (dict_values groups) = dict_keys groups).
  { unfold dict_values, dict_keys. rewrite map_map. apply map_ext_in.
    rewrite Forall_forall in F. intros kv I. symmetry. apply F, I. }
  rewrite dict_of_fresh by (rewrite E; exact ND).
  unfold dict_values. rewrite !map_map. apply map_ext_in.
  rewrite Forall_forall in F, Hc. intros [k g] I.
  specialize (F _ I). specialize (Hc _ I). simpl in F, Hc. simpl.
  rewrite <- F. f_equal. exact Hc.
Qed.

Lemma reload_keeps_ledgers_witness :
  let groups := [("trip"%string, group_trip)] in
  map (fun kv => (fst kv, Group.debt_manager (snd kv)))
      [("trip"%string, reloaded_group group_trip)] =
  map (fun kv => (fst kv, Group.debt_manager (snd kv))) groups.
Proof.
  intros groups.
  apply (@reload_keeps_ledgers users_ABC users_ABC groups
           [("trip"%string, reloaded_group group_trip)]).
  - split.
    + repeat constructor; simpl; intuition discriminate.
    + repeat constructor.
  - split.
    + repeat constructor; simpl; intuition discriminate.
    + repeat constructor.
  - constructor; [|constructor]. split; [|split].
    + vm_compute. repeat constructor.
    + vm_compute. repeat constructor.
    + vm_compute. repeat constructor; simpl; intuition discriminate.
  - constructor; [|constructor]. vm_compute. reflexivity.
  - vm_compute. reflexivity.
Defined.
